(** * Gemini-Agent-Workflow: a shallow embedding of the workflow agent

    Sources embedded here:
    - src/services/geminiService.ts : getFileContent, extractThinking,
      generateWorkflowPlan, executeWorkflowStep (history context, error
      handling);
    - src/App.tsx : the auto-executor effect (executeNextStep),
      handleCreateWorkflow and handleReset;
    - src/utils/fileUtils.ts : getFileCategory, readFileContent (the branch
      taken and the data URL it reads), createDocxBlob (the paragraphs);
    - src/components/FileUpload.tsx : processFiles;
    - src/unnamed/part_000 (WorkflowList) : extractCode, isPotentialReport,
      handleDownloadCode (the extension), getThinkingPreview.

    JavaScript strings are modelled as lists of 8-bit code units. *)

From Stdlib Require Import Ascii String List Bool Arith Lia.
Import ListNotations.

(* ------------------------------------------------------------------ *)
(** ** JavaScript string primitives *)

Definition jstr := list ascii.

(** A string literal as a JS string. *)
Definition js (s : string) : jstr := list_ascii_of_string s.

Definition chr (n : nat) : jstr := [ascii_of_nat n].
Definition NL : jstr := chr 10.

(** [s.startsWith(p)], returning the remainder when it holds. *)
Fixpoint strip_prefix (p s : jstr) : option jstr :=
  match p, s with
  | [], _ => Some s
  | c :: p', d :: s' => if Ascii.eqb c d then strip_prefix p' s' else None
  | _ :: _, [] => None
  end.

Definition startsWith (s p : jstr) : bool :=
  match strip_prefix p s with Some _ => true | None => false end.

(** [h.includes(n)]. *)
Fixpoint contains (n h : jstr) : bool :=
  startsWith h n || match h with [] => false | _ :: h' => contains n h' end.

Definition jeq (a b : jstr) : bool :=
  if list_eq_dec ascii_dec a b then true else false.

(** First occurrence of [n] in [r]: the text before it and the text after it
    (what a lazy [[\s\S]*?n] finds). *)
Fixpoint find_first (n r : jstr) : option (jstr * jstr) :=
  match strip_prefix n r with
  | Some a => Some ([], a)
  | None =>
      match r with
      | [] => None
      | c :: r' =>
          match find_first n r' with
          | Some (b, a) => Some (c :: b, a)
          | None => None
          end
      end
  end.

(** WhiteSpace and LineTerminator code units below 256, as removed by
    [String.prototype.trim]. *)
Definition is_ws (c : ascii) : bool :=
  match nat_of_ascii c with
  | 9 | 10 | 11 | 12 | 13 | 32 | 160 => true
  | _ => false
  end.

Fixpoint drop_ws (l : jstr) : jstr :=
  match l with
  | [] => []
  | c :: l' => if is_ws c then drop_ws l' else l
  end.

Definition trim (l : jstr) : jstr := rev (drop_ws (rev (drop_ws l))).

(* ------------------------------------------------------------------ *)
(** ** extractThinking (geminiService.ts) *)

Definition OPEN : jstr := js "<think>".
Definition CLOSE : jstr := js "</think>".

(** [text.match(/<think>([\s\S]*?)<\/think>/)]: the leftmost position at
    which [<think>] starts and is followed by some [</think>]; the group is
    the text up to the first such [</think>].  Returns
    (text before the match, group 1, text after the match). *)
Fixpoint think_match (t : jstr) : option (jstr * jstr * jstr) :=
  let here :=
    match strip_prefix OPEN t with
    | Some rest =>
        match find_first CLOSE rest with
        | Some (inner, after) => Some ([], inner, after)
        | None => None
        end
    | None => None
    end in
  match here with
  | Some m => Some m
  | None =>
      match t with
      | [] => None
      | c :: t' =>
          match think_match t' with
          | Some (b, i, a) => Some (c :: b, i, a)
          | None => None
          end
      end
  end.

Record split_result := { split_thinking : jstr; split_content : jstr }.

(** [extractThinking]: [text.replace(re, '')] removes the same (first)
    match, so the content is the text before it followed by the text after. *)
Definition extractThinking (text : jstr) : split_result :=
  match think_match text with
  | Some (before, inner, after) =>
      {| split_thinking := trim inner; split_content := trim (before ++ after) |}
  | None => {| split_thinking := []; split_content := text |}
  end.


(* ------------------------------------------------------------------ *)
(** ** Data model (types.ts) *)

Inductive StepStatus := PENDING | PROCESSING | COMPLETED | FAILED.

Definition status_eqb (a b : StepStatus) : bool :=
  match a, b with
  | PENDING, PENDING | PROCESSING, PROCESSING
  | COMPLETED, COMPLETED | FAILED, FAILED => true
  | _, _ => false
  end.

(** [id] is the random base-36 string of the source; any type with equality
    does, and [nat] is used. *)
Record WorkflowStep := {
  id : nat;
  description : jstr;
  status : StepStatus;
  result : option jstr;
  thinking : option jstr
}.

Definition with_status (st : StepStatus) (s : WorkflowStep) : WorkflowStep :=
  {| id := id s; description := description s; status := st;
     result := result s; thinking := thinking s |}.

(** JavaScript truthiness of an optional string. *)
Definition truthy (o : option jstr) : bool :=
  match o with Some (_ :: _) => true | _ => false end.

(* ------------------------------------------------------------------ *)
(** ** executeWorkflowStep (geminiService.ts) *)

(** A thrown value: an [Error] with its message, or anything else. *)
Inductive js_error := ErrorObj (message : jstr) | NonError.

Inductive promise (A : Type) := Resolved (a : A) | Rejected (e : js_error).
Arguments Resolved {A} a.
Arguments Rejected {A} e.

(** How the streamed model call ends: all deltas delivered, or the deltas
    received before an exception. *)
Inductive stream_outcome :=
| StreamDone (deltas : list jstr)
| StreamFailed (deltas : list jstr) (e : js_error).

Definition QUOTE : jstr := chr 34.

Definition SEP : jstr := NL ++ js "---" ++ NL.

(** [Array.prototype.join]. *)
Fixpoint join (sep : jstr) (l : list jstr) : jstr :=
  match l with
  | [] => []
  | [x] => x
  | x :: l' => x ++ sep ++ join sep l'
  end.

(** Template-literal rendering of an optional string. *)
Definition show_opt (o : option jstr) : jstr :=
  match o with Some r => r | None => js "undefined" end.

Definition history_kept (s : WorkflowStep) : bool :=
  status_eqb (status s) COMPLETED && truthy (result s).

Definition history_entry (s : WorkflowStep) : jstr :=
  js "PREVIOUS STEP: " ++ QUOTE ++ description s ++ QUOTE ++ NL
  ++ js "RESULT: " ++ show_opt (result s) ++ NL.

(** [historyContext]: filter, map, join. *)
Definition historyContext (previousSteps : list WorkflowStep) : jstr :=
  join SEP (map history_entry (filter history_kept previousSteps)).

Definition or_default (s d : jstr) : jstr :=
  match s with [] => d | _ => s end.

(** The prompt: the context block, the files block and the task line; the
    fixed instruction text after the task is abbreviated to its marker. *)
Definition stepPrompt (fileContent : jstr) (step : WorkflowStep)
    (previousSteps : list WorkflowStep) : jstr :=
  js "You are an automated agent executing a workflow." ++ NL ++ NL
  ++ js "=== CONTEXT FROM PREVIOUS STEPS ===" ++ NL
  ++ or_default (historyContext previousSteps)
                (js "No previous steps executed yet.") ++ NL
  ++ js "===================================" ++ NL ++ NL
  ++ js "=== FILES ===" ++ NL ++ fileContent ++ NL ++ js "=============" ++ NL ++ NL
  ++ js "=== CURRENT TASK ===" ++ NL
  ++ js "Task: " ++ QUOTE ++ description step ++ QUOTE ++ NL
  ++ js "Your response:".

Record step_output := { out_result : jstr; out_thinking : jstr }.

Definition error_message (e : js_error) : jstr :=
  match e with ErrorObj m => m | NonError => js "Unknown error" end.

(** [executeWorkflowStep]: the model, a function from the prompt to the way
    its stream ends, is the environment.  The [catch] turns any stream
    error into a resolved value. *)
Definition executeWorkflowStep (fileContent : jstr) (step : WorkflowStep)
    (previousSteps : list WorkflowStep) (model : jstr -> stream_outcome)
    : promise step_output :=
  match model (stepPrompt fileContent step previousSteps) with
  | StreamDone deltas =>
      let fullResponse := concat deltas in
      let sp := extractThinking fullResponse in
      Resolved {| out_result := split_content sp; out_thinking := split_thinking sp |}
  | StreamFailed _ e =>
      Resolved {| out_result := js "Error executing step: " ++ error_message e;
                  out_thinking := [] |}
  end.

(* ------------------------------------------------------------------ *)
(** ** The App component (App.tsx)

    React state is explicit.  The auto-executor is a [useEffect] with
    dependencies [[workflowSteps, agentState.isExecuting, files]]: after a
    render in which a dependency changed, React schedules the effect with
    the values of that render (its closure) and runs it before the next
    render.  [pending_effect] is that scheduled effect, [deps_dirty] records
    a dependency change not yet rendered.  [setWorkflowSteps(prev =>
    prev.map(...))] always yields a new array, so it always changes the
    dependency.  [in_flight] holds the calls of [executeWorkflowStep] that
    have not returned, with the arguments they were made with. *)

Record App := {
  fileContent : jstr;
  has_files : bool;
  workflowSteps : list WorkflowStep;
  isAnalyzing : bool;
  isExecuting : bool;
  currentStepId : option nat;
  error : option jstr;
  pending_effect : option (list WorkflowStep * bool);
  deps_dirty : bool;
  in_flight : list (WorkflowStep * list WorkflowStep)
}.

Definition app_init (fc : jstr) (hf : bool) : App :=
  {| fileContent := fc; has_files := hf; workflowSteps := [];
     isAnalyzing := false; isExecuting := false; currentStepId := None;
     error := None; pending_effect := None; deps_dirty := false;
     in_flight := [] |}.

(** Functional record updates used by the handlers. *)
Definition set_steps (ws : list WorkflowStep) (a : App) : App :=
  {| fileContent := fileContent a; has_files := has_files a; workflowSteps := ws;
     isAnalyzing := isAnalyzing a; isExecuting := isExecuting a;
     currentStepId := currentStepId a; error := error a;
     pending_effect := pending_effect a; deps_dirty := true;
     in_flight := in_flight a |}.

Definition set_agent (an ex : bool) (cur : option nat) (a : App) : App :=
  {| fileContent := fileContent a; has_files := has_files a;
     workflowSteps := workflowSteps a;
     isAnalyzing := an; isExecuting := ex; currentStepId := cur; error := error a;
     pending_effect := pending_effect a;
     deps_dirty := deps_dirty a || negb (Bool.eqb ex (isExecuting a));
     in_flight := in_flight a |}.

Definition set_error (e : option jstr) (a : App) : App :=
  {| fileContent := fileContent a; has_files := has_files a;
     workflowSteps := workflowSteps a;
     isAnalyzing := isAnalyzing a; isExecuting := isExecuting a;
     currentStepId := currentStepId a; error := e;
     pending_effect := pending_effect a; deps_dirty := deps_dirty a;
     in_flight := in_flight a |}.

Definition set_pending (p : option (list WorkflowStep * bool)) (d : bool) (a : App) : App :=
  {| fileContent := fileContent a; has_files := has_files a;
     workflowSteps := workflowSteps a;
     isAnalyzing := isAnalyzing a; isExecuting := isExecuting a;
     currentStepId := currentStepId a; error := error a;
     pending_effect := p; deps_dirty := d; in_flight := in_flight a |}.

Definition set_in_flight (l : list (WorkflowStep * list WorkflowStep)) (a : App) : App :=
  {| fileContent := fileContent a; has_files := has_files a;
     workflowSteps := workflowSteps a;
     isAnalyzing := isAnalyzing a; isExecuting := isExecuting a;
     currentStepId := currentStepId a; error := error a;
     pending_effect := pending_effect a; deps_dirty := deps_dirty a; in_flight := l |}.

Definition is_pending (s : WorkflowStep) : bool := status_eqb (status s) PENDING.

(** [prev.map(s => s.id === nextStep.id ? f s : s)]. *)
Definition update_by_id (i : nat) (f : WorkflowStep -> WorkflowStep)
    (ws : list WorkflowStep) : list WorkflowStep :=
  map (fun s => if Nat.eqb (id s) i then f s else s) ws.

(** [executeNextStep] up to its [await], run with the values captured by
    the effect's closure ([ws], [ex]); the state updates are applied to the
    current state [a]. *)
Definition executeNextStep_start (ws : list WorkflowStep) (ex : bool) (a : App) : App :=
  if negb ex then a else
  match find is_pending ws with
  | None => set_agent (isAnalyzing a) false None a
  | Some nextStep =>
      let a1 := set_steps (update_by_id (id nextStep) (with_status PROCESSING)
                                        (workflowSteps a)) a in
      let a2 := set_agent (isAnalyzing a1) (isExecuting a1) (Some (id nextStep)) a1 in
      set_in_flight (in_flight a2 ++ [(nextStep, ws)]) a2
  end.

Definition complete_step (o : step_output) (s : WorkflowStep) : WorkflowStep :=
  {| id := id s; description := description s; status := COMPLETED;
     result := Some (out_result o); thinking := Some (out_thinking o) |}.

Definition fail_step (s : WorkflowStep) : WorkflowStep :=
  {| id := id s; description := description s; status := FAILED;
     result := Some (js "Failed to execute step."); thinking := thinking s |}.

Fixpoint remove_nth {A} (k : nat) (l : list A) : list A :=
  match k, l with
  | _, [] => []
  | 0, _ :: l' => l'
  | S k', x :: l' => x :: remove_nth k' l'
  end.

(** [executeNextStep] after its [await]: the [try] and [catch] branches. *)
Definition executeNextStep_finish (nextStep : WorkflowStep)
    (r : promise step_output) (a : App) : App :=
  match r with
  | Resolved o => set_steps (update_by_id (id nextStep) (complete_step o) (workflowSteps a)) a
  | Rejected _ =>
      let a1 := set_steps (update_by_id (id nextStep) fail_step (workflowSteps a)) a in
      set_agent (isAnalyzing a1) false (currentStepId a1) a1
  end.

(** Scheduling events. *)
Inductive event :=
| Render                                        (* React commits a render *)
| Flush                                         (* the scheduled effect runs *)
| Complete (k : nat) (model : jstr -> stream_outcome).
                                                (* in-flight call [k] returns *)

Definition exec_event (a : App) (e : event) : App :=
  match e with
  | Render =>
      match pending_effect a with
      | Some _ => a       (* React runs a scheduled effect before rendering *)
      | None =>
          if deps_dirty a
          then set_pending (Some (workflowSteps a, isExecuting a)) false a
          else a
      end
  | Flush =>
      match pending_effect a with
      | None => a
      | Some (ws, ex) => executeNextStep_start ws ex (set_pending None (deps_dirty a) a)
      end
  | Complete k model =>
      match nth_error (in_flight a) k with
      | None => a
      | Some (nextStep, ws) =>
          let a1 := set_in_flight (remove_nth k (in_flight a)) a in
          executeNextStep_finish nextStep
            (executeWorkflowStep (fileContent a) nextStep ws model) a1
      end
  end.

(** The states visited along a schedule. *)
Fixpoint trace (a : App) (sched : list event) : list App :=
  a :: match sched with
       | [] => []
       | e :: sched' => trace (exec_event a e) sched'
       end.

(* ------------------------------------------------------------------ *)
(** ** generateWorkflowPlan (geminiService.ts) and handleCreateWorkflow *)

(** [response.match(/\[[\s\S]*\]/)]: from the first [[] that has a []]
    after it, greedily to the last []]. *)
Fixpoint last_close (r : jstr) : option jstr :=
  match r with
  | [] => None
  | c :: r' =>
      match last_close r' with
      | Some p => Some (c :: p)
      | None => if Ascii.eqb c "]"%char then Some [c] else None
      end
  end.

Fixpoint array_match (t : jstr) : option jstr :=
  match t with
  | [] => None
  | c :: t' =>
      if Ascii.eqb c "["%char then
        match last_close t' with
        | Some p => Some (c :: p)
        | None => array_match t'
        end
      else array_match t'
  end.

(** The model's reply to the plan request: its text, or a transport error. *)
Inductive plan_reply := PlanText (response : jstr) | PlanError (e : js_error).

Definition PLAN_FALLBACK : jstr := js "Failed to generate plan.".
Definition PLAN_ERROR_MSG : jstr :=
  js "Failed to generate a workflow. Please check your API key or try again.".

Section Plan.

(** [JSON.parse] on the matched array text: the parsed step strings, or
    [None] when it throws a SyntaxError. *)
Variable JSON_parse : jstr -> option (list jstr).

Definition generateWorkflowPlan (reply : plan_reply) : promise (list jstr) :=
  match reply with
  | PlanError e => Rejected e
  | PlanText response =>
      match array_match response with
      | None => Resolved [PLAN_FALLBACK]
      | Some m =>
          match JSON_parse m with
          | Some l => Resolved l
          | None => Rejected (ErrorObj (js "Unexpected token in JSON"))
          end
      end
  end.

(** [Math.random()] ids: [gen i] is the id drawn for the [i]-th step. *)
Fixpoint mk_steps (gen : nat -> nat) (i : nat) (plan : list jstr) : list WorkflowStep :=
  match plan with
  | [] => []
  | d :: plan' =>
      {| id := gen i; description := d; status := PENDING;
         result := None; thinking := None |} :: mk_steps gen (S i) plan'
  end.

(** [handleCreateWorkflow], from the click to the end of its [try]/[catch]. *)
Definition handleCreateWorkflow (gen : nat -> nat) (reply : plan_reply) (a : App) : App :=
  if negb (has_files a) then a else
  let a1 := set_agent true (isExecuting a) (currentStepId a) a in
  let a2 := set_steps [] (set_error None a1) in
  match generateWorkflowPlan reply with
  | Resolved planStrings =>
      let a3 := set_steps (mk_steps gen 0 planStrings) a2 in
      set_agent false true (currentStepId a3) a3
  | Rejected _ =>
      let a3 := set_error (Some PLAN_ERROR_MSG) a2 in
      set_agent false (isExecuting a3) (currentStepId a3) a3
  end.

(** The create button is enabled only with files and an idle agent. *)
Definition create_enabled (a : App) : bool :=
  has_files a && negb (isAnalyzing a) && negb (isExecuting a).

(** The agent is idle, with the workflow error shown and no steps. *)
Definition idle_with_error (a : App) : Prop :=
  error a = Some PLAN_ERROR_MSG /\ workflowSteps a = []
  /\ isAnalyzing a = false /\ isExecuting a = false.

End Plan.

(* ------------------------------------------------------------------ *)
(** ** getFileCategory (fileUtils.ts) *)

Inductive Category := code | text | image | pdf | document | unknown.

(** [String.prototype.toLowerCase] on code units below 256. *)
Definition lower_char (c : ascii) : ascii :=
  let n := nat_of_ascii c in
  if ((65 <=? n) && (n <=? 90)) || ((192 <=? n) && (n <=? 222) && negb (n =? 215))
  then ascii_of_nat (n + 32) else c.

Definition toLowerCase (s : jstr) : jstr := map lower_char s.

(** [s.split(sep)] for a one-character separator. *)
Fixpoint split_on (sep : ascii) (s : jstr) : list jstr :=
  match s with
  | [] => [[]]
  | c :: s' =>
      let r := split_on sep s' in
      if Ascii.eqb c sep then [] :: r
      else match r with
           | [] => [[c]]
           | seg :: rest => (c :: seg) :: rest
           end
  end.

(** [filename.split('.').pop()?.toLowerCase()]; the split is never empty. *)
Definition file_ext (filename : jstr) : jstr :=
  toLowerCase (last (split_on "."%char filename) []).

Definition includes_str (l : list jstr) (x : jstr) : bool := existsb (jeq x) l.

Definition CODE_EXTS : list jstr :=
  map js ["py"; "js"; "ts"; "tsx"; "c"; "cpp"; "h"; "java"; "go"; "rs";
          "html"; "css"; "json"; "md"]%string.

Definition DOC_EXTS : list jstr := map js ["doc"; "docx"; "ppt"; "pptx"; "txt"]%string.

Definition getFileCategory (filename type_ : jstr) : Category :=
  let ext := file_ext filename in
  if includes_str CODE_EXTS ext then code
  else if jeq type_ (js "application/pdf") || jeq ext (js "pdf") then pdf
  else if startsWith type_ (js "image/") then image
  else if includes_str DOC_EXTS ext || contains (js "text") type_
          || contains (js "document") type_ then document
  else unknown.

(* ------------------------------------------------------------------ *)
(** ** extractCode and isPotentialReport (WorkflowList, part_000) *)

Definition FENCE : jstr := js "```".

(** [\w]. *)
Definition is_word (c : ascii) : bool :=
  let n := nat_of_ascii c in
  ((48 <=? n) && (n <=? 57)) || ((65 <=? n) && (n <=? 90))
  || ((97 <=? n) && (n <=? 122)) || (n =? 95).

Fixpoint word_run (s : jstr) : jstr * jstr :=
  match s with
  | c :: s' => if is_word c then let (w, r) := word_run s' in (c :: w, r) else ([], s)
  | [] => ([], [])
  end.

(** [/```(\w+)?\n([\s\S]*?)```/] tried at the start of [t].  A word
    character never equals ['\n'], so [(\w+)?] can only succeed by taking
    the whole run of word characters. *)
Definition code_at (t : jstr) : option (option jstr * jstr) :=
  match strip_prefix FENCE t with
  | None => None
  | Some r =>
      let (w, r') := word_run r in
      match r' with
      | nl :: r'' =>
          if Ascii.eqb nl (ascii_of_nat 10) then
            match find_first FENCE r'' with
            | Some (body, _) => Some (match w with [] => None | _ => Some w end, body)
            | None => None
            end
          else None
      | [] => None
      end
  end.

(** The leftmost match. *)
Fixpoint code_match (t : jstr) : option (option jstr * jstr) :=
  match code_at t with
  | Some m => Some m
  | None => match t with [] => None | _ :: t' => code_match t' end
  end.

Record code_data := { language : jstr; code_text : jstr }.

Definition extractCode (markdown : jstr) : option code_data :=
  match code_match markdown with
  | Some (lang, body) =>
      Some {| language := match lang with Some l => l | None => js "txt" end;
              code_text := body |}
  | None => None
  end.




(* ------------------------------------------------------------------ *)
(** ** Properties of runs *)


Definition status_at (k : nat) (a : App) : option StepStatus :=
  option_map status (nth_error (workflowSteps a) k).

(** Step [k] goes from Pending to Processing between [a] and [a']. *)
Definition starts_step (a a' : App) (k : nat) : Prop :=
  status_at k a = Some PENDING /\ status_at k a' = Some PROCESSING.

(** A run as the user starts it: files present, the plan reply answered. *)
Definition run_from (JSON_parse : jstr -> option (list jstr)) (gen : nat -> nat)
    (reply : plan_reply) (fc : jstr) : App :=
  handleCreateWorkflow JSON_parse gen reply (app_init fc true).

(** A two-step plan; [plan_parse] is what [JSON.parse] returns on
    [plan_text]. *)
Definition plan_text : jstr :=
  js "[" ++ QUOTE ++ js "Analyze the code" ++ QUOTE ++ js ", "
  ++ QUOTE ++ js "Write the fixed code" ++ QUOTE ++ js "]".

Definition plan_parse (s : jstr) : option (list jstr) :=
  if jeq s plan_text then Some [js "Analyze the code"; js "Write the fixed code"] else None.

Definition two_step_run : App := run_from plan_parse (fun i => i) (PlanText plan_text) [].

Definition network_error (_ : jstr) : stream_outcome :=
  StreamFailed [js "<think>"] (ErrorObj (js "network error")).

Definition good_reply (_ : jstr) : stream_outcome :=
  StreamDone [js "<think>ok</think>"; js "Here is the fix."].

Definition statuses (a : App) : list StepStatus := map status (workflowSteps a).

(* ------------------------------------------------------------------ *)
(** ** getFileContent (geminiService.ts) *)

(** What [readFileContent] resolved to: a string, or an [ArrayBuffer]. *)
Inductive file_content := TextContent (s : jstr) | BinaryContent (bytes : list Byte.byte).

Record UploadedFile := {
  file_id : nat;
  name : jstr;
  file_type : jstr;
  size : nat;
  content : option file_content;
  category : Category
}.

Definition category_name (c : Category) : jstr :=
  match c with
  | code => js "code" | text => js "text" | image => js "image"
  | pdf => js "pdf" | document => js "document" | unknown => js "unknown"
  end.

(** Line terminators below 256: [.] does not match them. *)
Definition is_lt (c : ascii) : bool :=
  match nat_of_ascii c with 10 | 13 => true | _ => false end.

Definition no_lt (s : jstr) : bool := forallb (fun c => negb (is_lt c)) s.

Definition B64_MARK : jstr := js ";base64,".

(** The part of the data-URL regex after "data:": the shortest
    line-terminator free group 1 followed by ";base64," and a
    line-terminator free rest up to the end. *)
Fixpoint lazy_mime (r : jstr) : option (jstr * jstr) :=
  let here :=
    match strip_prefix B64_MARK r with
    | Some rest => if no_lt rest then Some ([], rest) else None
    | None => None
    end in
  match here with
  | Some m => Some m
  | None =>
      match r with
      | [] => None
      | c :: r' =>
          if is_lt c then None
          else match lazy_mime r' with
               | Some (g, rest) => Some (c :: g, rest)
               | None => None
               end
      end
  end.

(** [f.content.match] with the data-URL regex: (group 1, group 2). *)
Definition data_url_match (s : jstr) : option (jstr * jstr) :=
  match strip_prefix (js "data:") s with
  | Some r => lazy_mime r
  | None => None
  end.

Definition attachment_note (fname mimeType : jstr) : jstr :=
  NL ++ js "[File Attachment: " ++ fname ++ js " (" ++ mimeType
  ++ js ") - Binary content not displayable]" ++ NL.

Definition text_block (fname : jstr) (cat : Category) (contentStr : jstr) : jstr :=
  NL ++ js "File: " ++ fname ++ NL ++ js "Type: " ++ category_name cat ++ NL
  ++ js "Content:" ++ NL ++ contentStr ++ NL ++ js "---" ++ NL.

(** The text one file adds; [!f.content] skips [null] and [""]; an
    [ArrayBuffer] in a template literal prints as "[object ArrayBuffer]". *)
Definition file_entry (f : UploadedFile) : jstr :=
  match content f with
  | None | Some (TextContent []) => []
  | Some (TextContent s) =>
      if startsWith s (js "data:") then
        match data_url_match s with
        | Some (mimeType, _) => attachment_note (name f) mimeType
        | None => []
        end
      else text_block (name f) (category f) s
  | Some (BinaryContent _) => text_block (name f) (category f) (js "[object ArrayBuffer]")
  end.

Definition getFileContent (files : list UploadedFile) : jstr :=
  fold_left (fun acc f => acc ++ file_entry f) files [].

(* ------------------------------------------------------------------ *)
(** ** readFileContent and processFiles (fileUtils.ts, FileUpload.tsx) *)

Record File := { f_name : jstr; f_type : jstr; f_bytes : list Byte.byte }.

Definition endsWith (s suf : jstr) : bool := startsWith (rev s) (rev suf).

Inductive read_path := ReadDocx | ReadPdf | ReadDataURL | ReadText.

(** The branch [readFileContent] takes. *)
Definition read_path_of (file : File) : read_path :=
  if endsWith (toLowerCase (f_name file)) (js ".docx") then ReadDocx
  else if jeq (f_type file) (js "application/pdf")
          || endsWith (toLowerCase (f_name file)) (js ".pdf") then ReadPdf
  else if startsWith (f_type file) (js "image/") then ReadDataURL
  else ReadText.






(** The record [processFiles] builds for one read file. *)
Definition uploaded_of (newId : nat) (file : File) (c : jstr) : UploadedFile :=
  {| file_id := newId; name := f_name file; file_type := f_type file;
     size := length (f_bytes file); content := Some (TextContent c);
     category := getFileCategory (f_name file) (f_type file) |}.

(** [Promise.all] over the reads of one batch: the new records in order,
    or nothing as soon as one read rejects. *)
Fixpoint read_batch (batch : list (nat * File * promise jstr)) : option (list UploadedFile) :=
  match batch with
  | [] => Some []
  | (newId, file, Resolved c) :: rest =>
      match read_batch rest with
      | Some l => Some (uploaded_of newId file c :: l)
      | None => None
      end
  | (_, _, Rejected _) :: _ => None
  end.

(** [processFiles]: [setFiles(prev => [...prev, ...newFiles])] runs only
    once every read has resolved. *)
Definition processFiles (prev : list UploadedFile)
    (batch : list (nat * File * promise jstr)) : list UploadedFile :=
  match read_batch batch with
  | Some newFiles => prev ++ newFiles
  | None => prev
  end.


(* ------------------------------------------------------------------ *)
(** ** WorkflowList helpers (part_000) and createDocxBlob (fileUtils.ts) *)

(** [filter(line => line.trim())]: a line is kept when its trim is non-empty. *)
Definition nonblank (line : jstr) : bool :=
  match trim line with [] => false | _ => true end.

(** [getThinkingPreview]: the first three lines whose trim is non-empty. *)
Definition getThinkingPreview (thinking : jstr) : jstr :=
  join NL (firstn 3 (filter nonblank (split_on (ascii_of_nat 10) thinking))).

(** [line.replace(pat, '')] with a string pattern: the first occurrence. *)
Definition replace_first (pat rep s : jstr) : jstr :=
  match find_first pat s with
  | Some (before, after) => before ++ rep ++ after
  | None => s
  end.

Inductive HeadingLevel := HEADING_1 | HEADING_2 | HEADING_3.

(** The paragraphs [createDocxBlob] hands to the [docx] library. *)
Inductive Paragraph :=
| HeadingParagraph (text : jstr) (heading : HeadingLevel) (before after : nat)
| TextParagraph (run : jstr) (after : nat).

Definition line_paragraph (line : jstr) : Paragraph :=
  if startsWith line (js "# ") then
    HeadingParagraph (replace_first (js "# ") [] line) HEADING_1 200 100
  else if startsWith line (js "## ") then
    HeadingParagraph (replace_first (js "## ") [] line) HEADING_2 150 100
  else if startsWith line (js "### ") then
    HeadingParagraph (replace_first (js "### ") [] line) HEADING_3 100 50
  else TextParagraph line 100.

(** [createDocxBlob] up to [new Document]: one paragraph per line. *)
Definition docx_children (text : jstr) : list Paragraph :=
  map line_paragraph (split_on (ascii_of_nat 10) text).

(** The markdown line a paragraph stands for. *)
Definition paragraph_markdown (p : Paragraph) : jstr :=
  match p with
  | HeadingParagraph t HEADING_1 _ _ => js "# " ++ t
  | HeadingParagraph t HEADING_2 _ _ => js "## " ++ t
  | HeadingParagraph t HEADING_3 _ _ => js "### " ++ t
  | TextParagraph r _ => r
  end.

(** [handleDownloadCode]'s [extensions] object.  Reading a key it does not
    own falls through to [Object.prototype]. *)
Definition EXTENSIONS : list (jstr * jstr) :=
  map (fun '(k, v) => (js k, js v))
    [("python", "py"); ("py", "py"); ("javascript", "js"); ("js", "js");
     ("typescript", "ts"); ("ts", "ts"); ("cpp", "cpp"); ("c", "c");
     ("java", "java"); ("html", "html"); ("css", "css"); ("json", "json");
     ("markdown", "md")]%string.

Definition OBJECT_PROTOTYPE_KEYS : list jstr :=
  map js ["constructor"; "__defineGetter__"; "__defineSetter__"; "hasOwnProperty";
          "__lookupGetter__"; "__lookupSetter__"; "isPrototypeOf";
          "propertyIsEnumerable"; "toString"; "valueOf"; "__proto__";
          "toLocaleString"]%string.

Inductive lookup_result := OwnValue (v : jstr) | InheritedMember (k : jstr) | NoProperty.

Definition extensions_lookup (k : jstr) : lookup_result :=
  match find (fun kv => jeq k (fst kv)) EXTENSIONS with
  | Some (_, v) => OwnValue v
  | None => if includes_str OBJECT_PROTOTYPE_KEYS k then InheritedMember k else NoProperty
  end.

(** The [ext] of [handleDownloadCode]: a string, or an inherited function or
    object (truthy, so [|| 'txt'] keeps it) whose string form lands in the
    file name. *)
Inductive ext_value := ExtString (s : jstr) | ExtInherited (k : jstr).

Definition download_ext (language : jstr) : ext_value :=
  match extensions_lookup (toLowerCase language) with
  | OwnValue v => ExtString (or_default v (js "txt"))
  | InheritedMember k => ExtInherited k
  | NoProperty => ExtString (js "txt")
  end.

(* ------------------------------------------------------------------ *)
(** ** Status order and the run invariant *)

(** Pending, then Processing, then a final status. *)
Definition status_rank (s : StepStatus) : nat :=
  match s with PENDING => 0 | PROCESSING => 1 | COMPLETED | FAILED => 2 end.

(** What holds in every state of a run: steps sharing an id share their
    status; the steps of an in-flight call are Processing; a scheduled
    effect's snapshot has the current ids, and a step Pending in it is
    still Pending; no two in-flight calls are for the same id. *)
Definition run_inv (b : App) : Prop :=
  (forall s1 s2, In s1 (workflowSteps b) -> In s2 (workflowSteps b) ->
     id s1 = id s2 -> status s1 = status s2) /\
  (forall p s, In p (in_flight b) -> In s (workflowSteps b) ->
     id s = id (fst p) -> status s = PROCESSING) /\
  (forall ws ex, pending_effect b = Some (ws, ex) ->
     map id ws = map id (workflowSteps b) /\
     (forall s0 s, In s0 ws -> is_pending s0 = true -> In s (workflowSteps b) ->
        id s = id s0 -> status s = PENDING)) /\
  NoDup (map (fun p => id (fst p)) (in_flight b)).

(* ================================================================== *)
(** * Lemmas *)

(** ** Strings *)

Lemma strip_prefix_app : forall p r, strip_prefix p (p ++ r) = Some r.
Proof.
  induction p as [|c p IH]; intros r; simpl; [reflexivity|].
  rewrite Ascii.eqb_refl. apply IH.
Qed.

Lemma strip_prefix_sound : forall p s r, strip_prefix p s = Some r -> s = p ++ r.
Proof.
  induction p as [|c p IH]; intros [|d s] r H; simpl in H; try discriminate.
  - injection H as <-. reflexivity.
  - injection H as <-. reflexivity.
  - destruct (Ascii.eqb c d) eqn:E; [|discriminate].
    apply Ascii.eqb_eq in E. subst d. simpl. f_equal. eauto.
Qed.

Lemma contains_app : forall n x y, contains n (x ++ n ++ y) = true.
Proof.
  intros n x y. induction x as [|c x IH]; simpl.
  - destruct (n ++ y) eqn:E; simpl;
      unfold startsWith; rewrite <- E, strip_prefix_app; reflexivity.
  - rewrite IH. apply orb_true_r.
Qed.

Lemma contains_sound : forall n h, contains n h = true -> exists x y, h = x ++ n ++ y.
Proof.
  intros n h. induction h as [|c h IH]; intros H; simpl in H;
    apply orb_true_iff in H; destruct H as [H|H].
  - unfold startsWith in H. destruct (strip_prefix n []) as [r|] eqn:E; [|discriminate].
    exists [], r. apply strip_prefix_sound in E. exact E.
  - discriminate.
  - unfold startsWith in H. destruct (strip_prefix n (c :: h)) as [r|] eqn:E; [|discriminate].
    exists [], r. apply strip_prefix_sound in E. exact E.
  - destruct (IH H) as (x & y & ->). exists (c :: x), y. reflexivity.
Qed.

Lemma contains_cons_false : forall n c h,
  contains n (c :: h) = false -> contains n h = false.
Proof. intros n c h H. simpl in H. apply orb_false_iff in H. apply H. Qed.

(** A needle whose first character does not occur again cannot start
    strictly inside [q] and end inside the copy of itself that follows. *)
Lemma straddle : forall c0 n' q r z,
  ~ In c0 n' ->
  strip_prefix (c0 :: n') (q ++ (c0 :: n') ++ r) = Some z ->
  q = [] \/ contains (c0 :: n') q = true.
Proof.
  intros c0 n' q r z Hn H. apply strip_prefix_sound in H.
  destruct q as [|d q']; [left; reflexivity|right].
  destruct (le_lt_dec (length (c0 :: n')) (length (d :: q'))) as [Hle|Hlt].
  - assert (E : firstn (length (c0 :: n')) ((d :: q') ++ (c0 :: n') ++ r)
              = firstn (length (c0 :: n')) ((c0 :: n') ++ z)) by (rewrite H; reflexivity).
    rewrite !firstn_app in E.
    replace (length (c0 :: n') - length (d :: q')) with 0 in E by lia.
    rewrite Nat.sub_diag, !firstn_O, !app_nil_r, firstn_all in E.
    rewrite <- (firstn_skipn (length (c0 :: n')) (d :: q')), E.
    apply (contains_app (c0 :: n') []).
  - exfalso.
    assert (E : nth_error ((d :: q') ++ (c0 :: n') ++ r) (length (d :: q'))
              = nth_error ((c0 :: n') ++ z) (length (d :: q'))) by (rewrite H; reflexivity).
    rewrite nth_error_app2 in E by lia. rewrite Nat.sub_diag in E.
    rewrite (nth_error_app1 (c0 :: n') z) in E by exact Hlt.
    simpl in E. apply Hn. eapply nth_error_In. symmetry. exact E.
Qed.

Lemma find_first_eq : forall n r,
  find_first n r =
  match strip_prefix n r with
  | Some a => Some ([], a)
  | None =>
      match r with
      | [] => None
      | c :: r' =>
          match find_first n r' with
          | Some (b, a) => Some (c :: b, a)
          | None => None
          end
      end
  end.
Proof. intros n [|c r]; reflexivity. Qed.

Lemma find_first_app : forall c0 n' m s,
  ~ In c0 n' -> contains (c0 :: n') m = false ->
  find_first (c0 :: n') (m ++ (c0 :: n') ++ s) = Some (m, s).
Proof.
  intros c0 n' m s Hn. induction m as [|d m IH]; intros Hm.
  - rewrite find_first_eq, app_nil_l, strip_prefix_app. reflexivity.
  - rewrite find_first_eq.
    destruct (strip_prefix (c0 :: n') ((d :: m) ++ (c0 :: n') ++ s)) eqn:E.
    + exfalso. destruct (straddle _ _ _ _ _ Hn E) as [H|H]; [discriminate|congruence].
    + change ((d :: m) ++ (c0 :: n') ++ s) with (d :: (m ++ (c0 :: n') ++ s)).
      cbv iota beta. rewrite IH; [reflexivity|]. exact (contains_cons_false _ _ _ Hm).
Qed.

Lemma find_first_sound : forall n r b a, find_first n r = Some (b, a) -> r = b ++ n ++ a.
Proof.
  intros n r. induction r as [|c r IH]; intros b a H; rewrite find_first_eq in H.
  - destruct (strip_prefix n []) eqn:E; [|discriminate].
    injection H as <- <-. apply strip_prefix_sound in E. exact E.
  - destruct (strip_prefix n (c :: r)) eqn:E.
    + injection H as <- <-. apply strip_prefix_sound in E. exact E.
    + destruct (find_first n r) as [[b' a']|] eqn:F; [|discriminate].
      injection H as <- <-. rewrite (IH _ _ eq_refl). reflexivity.
Qed.

(** ** The thinking delimiters *)

Lemma open_not_in_tail : ~ In "<"%char (tl OPEN).
Proof. simpl. intuition discriminate. Qed.

Lemma close_not_in_tail : ~ In "<"%char (tl CLOSE).
Proof. simpl. intuition discriminate. Qed.

Lemma open_straddle : forall q r z,
  strip_prefix OPEN (q ++ OPEN ++ r) = Some z -> q = [] \/ contains OPEN q = true.
Proof. intros q r z. apply (straddle "<"%char (tl OPEN)), open_not_in_tail. Qed.

Lemma find_close_app : forall m s,
  contains CLOSE m = false -> find_first CLOSE (m ++ CLOSE ++ s) = Some (m, s).
Proof. intros m s. apply (find_first_app "<"%char (tl CLOSE)), close_not_in_tail. Qed.

Lemma think_match_eq : forall t,
  think_match t =
  match
    match strip_prefix OPEN t with
    | Some rest =>
        match find_first CLOSE rest with
        | Some (inner, after) => Some ([], inner, after)
        | None => None
        end
    | None => None
    end
  with
  | Some m => Some m
  | None =>
      match t with
      | [] => None
      | c :: t' =>
          match think_match t' with
          | Some (b, i, a) => Some (c :: b, i, a)
          | None => None
          end
      end
  end.
Proof. intros [|c t]; reflexivity. Qed.

Lemma think_match_app : forall p m s,
  contains OPEN p = false -> contains CLOSE m = false ->
  think_match (p ++ OPEN ++ m ++ CLOSE ++ s) = Some (p, m, s).
Proof.
  intros p m s Hp Hm. induction p as [|d p IH].
  - rewrite think_match_eq, app_nil_l, strip_prefix_app, find_close_app by exact Hm.
    reflexivity.
  - rewrite think_match_eq.
    destruct (strip_prefix OPEN ((d :: p) ++ OPEN ++ m ++ CLOSE ++ s)) eqn:E.
    + exfalso. destruct (open_straddle _ _ _ E) as [H|H]; [discriminate|congruence].
    + change ((d :: p) ++ OPEN ++ m ++ CLOSE ++ s) with (d :: (p ++ OPEN ++ m ++ CLOSE ++ s)).
      cbv iota beta. rewrite IH; [reflexivity|]. exact (contains_cons_false _ _ _ Hp).
Qed.

Lemma think_match_sound : forall t b i a,
  think_match t = Some (b, i, a) -> t = b ++ OPEN ++ i ++ CLOSE ++ a.
Proof.
  induction t as [|c t IH]; intros b i a H; rewrite think_match_eq in H.
  - simpl in H. discriminate.
  - destruct (strip_prefix OPEN (c :: t)) as [rest|] eqn:E.
    + destruct (find_first CLOSE rest) as [[inner after]|] eqn:F.
      * injection H as <- <- <-. apply strip_prefix_sound in E.
        apply find_first_sound in F. rewrite E, F. reflexivity.
      * destruct (think_match t) as [[[b' i'] a']|] eqn:T; [|discriminate].
        injection H as <- <- <-. rewrite (IH _ _ _ eq_refl). reflexivity.
    + destruct (think_match t) as [[[b' i'] a']|] eqn:T; [|discriminate].
      injection H as <- <- <-. rewrite (IH _ _ _ eq_refl). reflexivity.
Qed.

(** ** trim *)

Lemma drop_ws_app : forall x c r,
  is_ws c = false -> exists x', drop_ws (x ++ c :: r) = x' ++ c :: r.
Proof.
  intros x c r Hc. induction x as [|d x IH]; simpl.
  - rewrite Hc. exists []. reflexivity.
  - destruct (is_ws d).
    + exact IH.
    + exists (d :: x). reflexivity.
Qed.

(** [trim] only removes text outside a segment that starts and ends with
    non-white characters. *)
Lemma trim_keeps : forall x y z c y0 y1 d,
  y = c :: y0 -> y = y1 ++ [d] -> is_ws c = false -> is_ws d = false ->
  exists a b, trim (x ++ y ++ z) = a ++ y ++ b.
Proof.
  intros x y z c y0 y1 d H0 H1 Hc Hd. unfold trim.
  destruct (drop_ws_app x c (y0 ++ z) Hc) as [x' E].
  replace (x ++ y ++ z) with (x ++ c :: y0 ++ z) by (rewrite H0; reflexivity).
  rewrite E.
  replace (x' ++ c :: y0 ++ z) with (x' ++ (y1 ++ [d]) ++ z)
    by (rewrite <- H1, H0; reflexivity).
  rewrite !rev_app_distr. simpl rev at 2. rewrite <- app_assoc. simpl app at 2.
  destruct (drop_ws_app (rev z) d (rev y1 ++ rev x') Hd) as [z' E'].
  rewrite E', rev_app_distr. simpl rev at 1.
  rewrite rev_app_distr, !rev_involutive.
  exists x', (rev z'). rewrite H1. rewrite <- !app_assoc. reflexivity.
Qed.

(** ** Joining the history *)

Lemma join_cons : forall sep x l, l <> [] -> join sep (x :: l) = x ++ sep ++ join sep l.
Proof. intros sep x [|y l] H; [contradiction|reflexivity]. Qed.

Lemma join_mid : forall sep xs x ys, exists a b, join sep (xs ++ x :: ys) = a ++ x ++ b.
Proof.
  intros sep xs x ys. induction xs as [|y xs IH].
  - destruct ys as [|z ys].
    + exists [], []. simpl. rewrite app_nil_r. reflexivity.
    + exists [], (sep ++ join sep (z :: ys)). reflexivity.
  - destruct IH as (a & b & E). exists (y ++ sep ++ a), b.
    simpl app at 1. rewrite join_cons by (destruct xs; discriminate).
    rewrite E, <- !app_assoc. reflexivity.
Qed.

Lemma join_two : forall sep xs x ys z zs,
  exists a b c, join sep (xs ++ x :: ys ++ z :: zs) = a ++ x ++ b ++ z ++ c.
Proof.
  intros sep xs x ys z zs. induction xs as [|y xs IH].
  - destruct (join_mid sep ys z zs) as (a & b & E).
    exists [], (sep ++ a), b. simpl app at 1.
    rewrite join_cons by (destruct ys; discriminate).
    rewrite E, <- !app_assoc. reflexivity.
  - destruct IH as (a & b & c & E). exists (y ++ sep ++ a), b, c.
    simpl app at 1. rewrite join_cons by (destruct xs; discriminate).
    rewrite E, <- !app_assoc. reflexivity.
Qed.

(** ** Fenced code blocks *)


Lemma code_match_eq : forall t,
  code_match t =
  match code_at t with
  | Some m => Some m
  | None => match t with [] => None | _ :: t' => code_match t' end
  end.
Proof. intros [|c t]; reflexivity. Qed.

(** Positions that do not start with a backquote cannot start a match. *)
Lemma code_match_skip : forall a t,
  ~ In "`"%char a -> code_match (a ++ t) = code_match t.
Proof.
  induction a as [|c a IH]; intros t Ha; [reflexivity|].
  rewrite code_match_eq. simpl app.
  assert (Hc : Ascii.eqb "`"%char c = false).
  { apply Ascii.eqb_neq. intros <-. apply Ha. left. reflexivity. }
  assert (Hs : strip_prefix FENCE (c :: a ++ t) = None).
  { change FENCE with ("`"%char :: js "``"). cbn [strip_prefix]. rewrite Hc. reflexivity. }
  unfold code_at. rewrite Hs.
  apply IH. intros H. apply Ha. right. exact H.
Qed.





(** ** Plan creation *)

Lemma create_enabled_inv : forall a, create_enabled a = true ->
  has_files a = true /\ isAnalyzing a = false /\ isExecuting a = false.
Proof.
  intros a H. unfold create_enabled in H.
  apply andb_true_iff in H as [H H3]. apply andb_true_iff in H as [H1 H2].
  apply negb_true_iff in H2, H3. auto.
Qed.

Lemma handleCreateWorkflow_rejected : forall JSON_parse gen reply a e,
  create_enabled a = true -> generateWorkflowPlan JSON_parse reply = Rejected e ->
  idle_with_error (handleCreateWorkflow JSON_parse gen reply a).
Proof.
  intros JSON_parse gen reply a e Ha Hr.
  destruct (create_enabled_inv a Ha) as (H1 & H2 & H3).
  unfold handleCreateWorkflow. rewrite H1, Hr. cbn.
  unfold idle_with_error. cbn. auto.
Qed.

(** ** The step executor never rejects *)


(** ** No step of a run is ever Failed *)








(* ------------------------------------------------------------------ *)
(** ** getFileContent *)

Lemma fold_entries_acc : forall l acc,
  fold_left (fun acc f => acc ++ file_entry f) l acc = acc ++ getFileContent l.
Proof.
  induction l as [|f l IH]; intros acc.
  - simpl. rewrite app_nil_r. reflexivity.
  - unfold getFileContent. simpl. rewrite !IH. apply eq_sym, app_assoc.
Qed.

Lemma getFileContent_cons : forall f l,
  getFileContent (f :: l) = file_entry f ++ getFileContent l.
Proof. intros f l. unfold getFileContent at 1. simpl. apply fold_entries_acc. Qed.

Lemma lazy_mime_eq : forall r,
  lazy_mime r =
  match
    match strip_prefix B64_MARK r with
    | Some rest => if no_lt rest then Some ([], rest) else None
    | None => None
    end
  with
  | Some m => Some m
  | None =>
      match r with
      | [] => None
      | c :: r' =>
          if is_lt c then None
          else match lazy_mime r' with
               | Some (g, rest) => Some (c :: g, rest)
               | None => None
               end
      end
  end.
Proof. intros [|c r]; reflexivity. Qed.

Lemma b64_not_in_tail : ~ In ";"%char (tl B64_MARK).
Proof. simpl. intuition discriminate. Qed.

Lemma lazy_mime_app : forall mime payload,
  contains B64_MARK mime = false -> no_lt mime = true -> no_lt payload = true ->
  lazy_mime (mime ++ B64_MARK ++ payload) = Some (mime, payload).
Proof.
  induction mime as [|c m IH]; intros payload Hc Hm Hp.
  - rewrite app_nil_l, lazy_mime_eq, strip_prefix_app, Hp. reflexivity.
  - rewrite <- app_comm_cons, lazy_mime_eq.
    destruct (strip_prefix B64_MARK (c :: m ++ B64_MARK ++ payload)) as [z|] eqn:E.
    + exfalso. rewrite app_comm_cons in E.
      destruct (straddle ";"%char (tl B64_MARK) (c :: m) payload z b64_not_in_tail E)
        as [H|H]; [discriminate|].
      change (";"%char :: tl B64_MARK) with B64_MARK in H. congruence.
    + simpl in Hm. apply andb_true_iff in Hm as [Hc' Hm].
      apply negb_true_iff in Hc'. rewrite Hc'.
      rewrite (IH payload (contains_cons_false _ _ _ Hc) Hm Hp). reflexivity.
Qed.

Lemma lazy_mime_contains : forall r g rest,
  lazy_mime r = Some (g, rest) -> contains B64_MARK r = true.
Proof.
  induction r as [|c r IH]; intros g rest H; rewrite lazy_mime_eq in H.
  - discriminate.
  - destruct (strip_prefix B64_MARK (c :: r)) as [z|] eqn:E.
    + apply strip_prefix_sound in E. rewrite E.
      apply (contains_app B64_MARK [] z).
    + destruct (is_lt c); [discriminate|].
      destruct (lazy_mime r) as [[g' rest']|] eqn:E'; [|discriminate].
      change (contains B64_MARK (c :: r)) with
        (startsWith (c :: r) B64_MARK || contains B64_MARK r).
      rewrite (IH g' rest' eq_refl). apply orb_true_r.
Qed.

Lemma data_url_match_app : forall mime payload,
  contains B64_MARK mime = false -> no_lt mime = true -> no_lt payload = true ->
  data_url_match (js "data:" ++ mime ++ B64_MARK ++ payload) = Some (mime, payload).
Proof.
  intros mime payload Hc Hm Hp. unfold data_url_match.
  rewrite strip_prefix_app. apply lazy_mime_app; assumption.
Qed.

Lemma file_entry_data : forall f s m p,
  content f = Some (TextContent s) -> startsWith s (js "data:") = true ->
  data_url_match s = Some (m, p) -> file_entry f = attachment_note (name f) m.
Proof.
  intros f s m p Hc Hs Hm. unfold file_entry. rewrite Hc.
  destruct s as [|c s']; [discriminate|]. rewrite Hs, Hm. reflexivity.
Qed.

Lemma contains_app_r : forall n x y, contains n y = true -> contains n (x ++ y) = true.
Proof.
  intros n x y H. destruct (contains_sound n y H) as (u & v & ->).
  rewrite app_assoc. apply contains_app.
Qed.

Lemma startsWith_app : forall p r, startsWith (p ++ r) p = true.
Proof. intros p r. unfold startsWith. rewrite strip_prefix_app. reflexivity. Qed.





Lemma read_batch_rejected : forall batch i f e,
  In (i, f, Rejected e) batch -> read_batch batch = None.
Proof.
  induction batch as [|[[i' f'] r] batch IH]; intros i f e H; [destruct H|].
  destruct H as [H|H].
  - injection H; intros; subst. reflexivity.
  - simpl. rewrite (IH i f e H). destruct r; reflexivity.
Qed.

(* ------------------------------------------------------------------ *)
(** ** File names *)

Lemma lower_char_dot : forall c, Ascii.eqb (lower_char c) "."%char = Ascii.eqb c "."%char.
Proof. intros [[] [] [] [] [] [] [] []]; reflexivity. Qed.

Lemma split_on_nonnil : forall sep s, split_on sep s <> [].
Proof.
  intros sep [|c s]; simpl; [discriminate|].
  destruct (Ascii.eqb c sep); [discriminate|].
  destruct (split_on sep s); discriminate.
Qed.

Lemma split_on_lower : forall s,
  split_on "."%char (toLowerCase s) = map toLowerCase (split_on "."%char s).
Proof.
  induction s as [|c s IH]; [reflexivity|].
  unfold toLowerCase in *. simpl. rewrite lower_char_dot, IH.
  destruct (Ascii.eqb c "."%char); [reflexivity|].
  destruct (split_on "."%char s); reflexivity.
Qed.

Lemma last_map_gen : forall (A B : Type) (g : A -> B) l d,
  last (map g l) (g d) = g (last l d).
Proof.
  intros A B g l d. induction l as [|x l IH]; [reflexivity|].
  destruct l as [|y l]; [reflexivity|]. exact IH.
Qed.

Lemma last_app_nonnil : forall (A : Type) (l1 l2 : list A) d,
  l2 <> [] -> last (l1 ++ l2) d = last l2 d.
Proof.
  intros A l1 l2 d H. induction l1 as [|x l1 IH]; [reflexivity|].
  rewrite <- app_comm_cons. simpl. rewrite IH.
  destruct (l1 ++ l2) eqn:E; [|reflexivity].
  apply app_eq_nil in E as [_ E]. contradiction.
Qed.

(** The extension depends on the name only through its lower-case form. *)
Lemma file_ext_lower : forall s,
  file_ext s = last (split_on "."%char (toLowerCase s)) [].
Proof.
  intros s. unfold file_ext. rewrite split_on_lower.
  apply eq_sym, (last_map_gen _ _ toLowerCase _ []).
Qed.

Lemma split_on_app_sep : forall sep z y, exists p0 pre,
  split_on sep (z ++ sep :: y) = p0 :: pre ++ split_on sep y.
Proof.
  intros sep z y. induction z as [|c z (p0 & pre & IH)].
  - exists [], []. simpl. rewrite Ascii.eqb_refl. reflexivity.
  - rewrite <- app_comm_cons. simpl. rewrite IH.
    destruct (Ascii.eqb c sep).
    + exists [], (p0 :: pre). reflexivity.
    + exists (c :: p0), pre. reflexivity.
Qed.

Lemma endsWith_sound : forall s suf, endsWith s suf = true -> exists z, s = z ++ suf.
Proof.
  intros s suf H. unfold endsWith, startsWith in H.
  destruct (strip_prefix (rev suf) (rev s)) as [r|] eqn:E; [|discriminate].
  apply strip_prefix_sound in E. exists (rev r).
  rewrite <- (rev_involutive s), E, rev_app_distr, rev_involutive. reflexivity.
Qed.

Lemma endsWith_pdf_ext : forall n,
  endsWith (toLowerCase n) (js ".pdf") = true -> file_ext n = js "pdf".
Proof.
  intros n H. apply endsWith_sound in H as [z Hz].
  rewrite file_ext_lower, Hz.
  destruct (split_on_app_sep "."%char z (js "pdf")) as (p0 & pre & E).
  change (js ".pdf") with ("."%char :: js "pdf"). rewrite E, app_comm_cons.
  rewrite last_app_nonnil; [reflexivity|apply split_on_nonnil].
Qed.

(* ------------------------------------------------------------------ *)
(** ** Array literal and code block matches *)

Lemma last_close_none : forall r, last_close r = None -> ~ In "]"%char r.
Proof.
  induction r as [|c r IH]; intros H; [intros []|].
  simpl in H. destruct (last_close r); [discriminate|].
  destruct (Ascii.eqb c "]"%char) eqn:E; [discriminate|].
  intros [->|Hin]; [discriminate|exact (IH eq_refl Hin)].
Qed.

Lemma last_close_some : forall r p, last_close r = Some p ->
  exists q post, p = q ++ ["]"%char] /\ r = p ++ post /\ ~ In "]"%char post.
Proof.
  induction r as [|c r IH]; intros p H; [discriminate|].
  simpl in H. destruct (last_close r) as [p'|] eqn:E.
  - injection H as <-. destruct (IH p' eq_refl) as (q & post & -> & -> & Hp).
    exists (c :: q), post. split; [reflexivity|split; [reflexivity|exact Hp]].
  - destruct (Ascii.eqb c "]"%char) eqn:Ec; [|discriminate].
    apply Ascii.eqb_eq in Ec. subst c. injection H as <-.
    exists [], r. split; [reflexivity|split; [reflexivity|apply last_close_none, E]].
Qed.

Lemma array_match_no_close : forall r, ~ In "]"%char r -> array_match r = None.
Proof.
  induction r as [|c r IH]; intros H; [reflexivity|].
  simpl. assert (Hr : ~ In "]"%char r) by (intros Hin; apply H; right; exact Hin).
  destruct (last_close r) eqn:E.
  - exfalso. destruct (last_close_some r j E) as (q & post & -> & -> & _).
    apply Hr. apply in_or_app. left. apply in_or_app. right. left. reflexivity.
  - rewrite (IH Hr). destruct (Ascii.eqb c "["%char); reflexivity.
Qed.

Lemma array_match_some : forall r m, array_match r = Some m ->
  exists pre mid post, r = pre ++ m ++ post /\ m = "["%char :: mid ++ ["]"%char]
    /\ ~ In "["%char pre /\ ~ In "]"%char post.
Proof.
  induction r as [|c r IH]; intros m H; [discriminate|].
  simpl in H. destruct (Ascii.eqb c "["%char) eqn:Ec.
  - apply Ascii.eqb_eq in Ec. subst c.
    destruct (last_close r) as [p|] eqn:E.
    + injection H as <-. destruct (last_close_some r p E) as (q & post & -> & -> & Hp).
      exists [], q, post. split; [|split; [reflexivity|split; [intros []|exact Hp]]].
      rewrite app_assoc. reflexivity.
    + rewrite (array_match_no_close r (last_close_none r E)) in H. discriminate.
  - destruct (IH m H) as (pre & mid & post & -> & Hm & Hpre & Hpost).
    exists (c :: pre), mid, post. split; [reflexivity|split; [exact Hm|split; [|exact Hpost]]].
    intros [Hc|Hin]; [subst c; discriminate|exact (Hpre Hin)].
Qed.

Lemma last_close_in : forall r, In "]"%char r -> last_close r <> None.
Proof. intros r H E. exact (last_close_none r E H). Qed.

Lemma array_match_pair : forall x y z,
  array_match (x ++ "["%char :: y ++ "]"%char :: z) <> None.
Proof.
  induction x as [|c x IH]; intros y z.
  - simpl. destruct (last_close (y ++ "]"%char :: z)) eqn:E; [discriminate|].
    exfalso. refine (last_close_in _ _ E).
    apply in_or_app. right. left. reflexivity.
  - rewrite <- app_comm_cons. simpl. destruct (Ascii.eqb c "["%char).
    + destruct (last_close (x ++ "["%char :: y ++ "]"%char :: z)) eqn:E; [discriminate|].
      exfalso. refine (last_close_in _ _ E).
      apply in_or_app. right. right. apply in_or_app. right. left. reflexivity.
    + apply IH.
Qed.

Lemma strip_prefix_ext : forall n x y z,
  strip_prefix n x = Some y -> strip_prefix n (x ++ z) = Some (y ++ z).
Proof.
  induction n as [|c n IH]; intros x y z H.
  - injection H as <-. reflexivity.
  - destruct x as [|d x]; [discriminate|]. simpl in *.
    destruct (Ascii.eqb c d); [apply IH, H|discriminate].
Qed.

(** The text before the first occurrence of a non-empty needle does not
    contain the needle. *)
Lemma find_first_before : forall n r b a,
  n <> [] -> find_first n r = Some (b, a) -> contains n b = false.
Proof.
  intros n r. induction r as [|c r IH]; intros b a Hn H; rewrite find_first_eq in H.
  - destruct (strip_prefix n []) eqn:E.
    + injection H as <- <-. destruct n; [contradiction|reflexivity].
    + discriminate.
  - destruct (strip_prefix n (c :: r)) eqn:E.
    + injection H as <- <-. destruct n; [contradiction|reflexivity].
    + destruct (find_first n r) as [[b' a']|] eqn:F; [|discriminate].
      injection H as <- <-.
      change (contains n (c :: b')) with (startsWith (c :: b') n || contains n b').
      rewrite (IH b' a' Hn eq_refl), orb_false_r.
      unfold startsWith. destruct (strip_prefix n (c :: b')) as [w|] eqn:W; [|reflexivity].
      apply find_first_sound in F. subst r.
      apply (strip_prefix_ext n (c :: b') w (n ++ a')) in W.
      rewrite <- app_comm_cons, E in W. discriminate.
Qed.

Lemma word_run_words : forall s, forallb is_word (fst (word_run s)) = true.
Proof.
  induction s as [|c s IH]; [reflexivity|]. simpl.
  destruct (is_word c) eqn:E; [|reflexivity].
  destruct (word_run s) as [w r]. simpl in *. rewrite E, IH. reflexivity.
Qed.

Lemma code_at_shape : forall t lang body, code_at t = Some (lang, body) ->
  contains FENCE body = false /\
  (lang = None \/ exists w, lang = Some w /\ w <> [] /\ forallb is_word w = true).
Proof.
  intros t lang body H. unfold code_at in H.
  destruct (strip_prefix FENCE t) as [r|]; [|discriminate].
  pose proof (word_run_words r) as Hw.
  destruct (word_run r) as [w r']. simpl in Hw.
  destruct r' as [|nl r'']; [discriminate|].
  destruct (Ascii.eqb nl (ascii_of_nat 10)); [|discriminate].
  destruct (find_first FENCE r'') as [[b a]|] eqn:F; [|discriminate].
  injection H as <- <-. split.
  - apply (find_first_before FENCE r'' b a); [discriminate|exact F].
  - destruct w as [|c w]; [left; reflexivity|]. right.
    exists (c :: w). repeat split; [discriminate|exact Hw].
Qed.

Lemma code_match_at : forall t m, code_match t = Some m -> exists t', code_at t' = Some m.
Proof.
  induction t as [|c t IH]; intros m H; rewrite code_match_eq in H.
  - destruct (code_at []) eqn:E; [|discriminate]. injection H as <-. exists []. exact E.
  - destruct (code_at (c :: t)) eqn:E.
    + injection H as <-. exists (c :: t). exact E.
    + exact (IH m H).
Qed.

(* ------------------------------------------------------------------ *)
(** ** Lines: split and join *)

Lemma split_on_no_sep : forall sep x, ~ In sep x -> split_on sep x = [x].
Proof.
  induction x as [|c x IH]; intros H; [reflexivity|].
  simpl. destruct (Ascii.eqb c sep) eqn:E.
  - apply Ascii.eqb_eq in E. subst c. exfalso. apply H. left. reflexivity.
  - rewrite IH; [reflexivity|]. intros Hin. apply H. right. exact Hin.
Qed.

Lemma split_on_app_exact : forall sep x y, ~ In sep x ->
  split_on sep (x ++ sep :: y) = x :: split_on sep y.
Proof.
  induction x as [|c x IH]; intros y H.
  - simpl. rewrite Ascii.eqb_refl. reflexivity.
  - rewrite <- app_comm_cons. simpl. destruct (Ascii.eqb c sep) eqn:E.
    + apply Ascii.eqb_eq in E. subst c. exfalso. apply H. left. reflexivity.
    + rewrite IH; [reflexivity|]. intros Hin. apply H. right. exact Hin.
Qed.

Lemma split_on_segments : forall sep s, Forall (fun x => ~ In sep x) (split_on sep s).
Proof.
  induction s as [|c s IH]; simpl.
  - constructor; [intros []|constructor].
  - destruct (Ascii.eqb c sep) eqn:E.
    + constructor; [intros []|exact IH].
    + assert (Hc : c <> sep) by (intros ->; rewrite Ascii.eqb_refl in E; discriminate).
      destruct (split_on sep s) as [|seg rest].
      * constructor; [|constructor]. intros [H|[]]. exact (Hc H).
      * inversion IH as [|? ? Hseg Hrest]; subst.
        constructor; [|exact Hrest]. intros [H|H]; [exact (Hc H)|exact (Hseg H)].
Qed.

Lemma join_split : forall sep s, join [sep] (split_on sep s) = s.
Proof.
  induction s as [|c s IH]; [reflexivity|]. simpl.
  destruct (Ascii.eqb c sep) eqn:E.
  - apply Ascii.eqb_eq in E. subst c.
    rewrite join_cons by apply split_on_nonnil. rewrite IH. reflexivity.
  - destruct (split_on sep s) as [|seg rest] eqn:S.
    + exfalso. exact (split_on_nonnil sep s S).
    + destruct rest as [|x rest]; simpl in *; rewrite IH; reflexivity.
Qed.

Lemma split_join : forall sep xs, xs <> [] -> Forall (fun x => ~ In sep x) xs ->
  split_on sep (join [sep] xs) = xs.
Proof.
  induction xs as [|x xs IH]; intros Hne H; [contradiction|].
  inversion H as [|? ? Hx Hxs]; subst.
  destruct xs as [|y xs].
  - apply split_on_no_sep, Hx.
  - rewrite join_cons by discriminate.
    change (x ++ [sep] ++ join [sep] (y :: xs)) with (x ++ sep :: join [sep] (y :: xs)).
    rewrite split_on_app_exact by exact Hx. rewrite IH; [reflexivity|discriminate|exact Hxs].
Qed.

Lemma length_split_on : forall sep s,
  length (split_on sep s) = S (count_occ ascii_dec s sep).
Proof.
  induction s as [|c s IH]; [reflexivity|]. simpl.
  destruct (Ascii.eqb c sep) eqn:E; destruct (ascii_dec c sep) as [Hc|Hc].
  - simpl. rewrite IH. reflexivity.
  - apply Ascii.eqb_eq in E. contradiction.
  - subst c. rewrite Ascii.eqb_refl in E. discriminate.
  - destruct (split_on sep s) as [|seg rest] eqn:S; [exfalso; exact (split_on_nonnil sep s S)|].
    exact IH.
Qed.

Lemma in_firstn_in : forall (A : Type) n (l : list A) x, In x (firstn n l) -> In x l.
Proof.
  intros A n l x H. rewrite <- (firstn_skipn n l). apply in_or_app. left. exact H.
Qed.

(* ------------------------------------------------------------------ *)
(** ** Paragraphs *)

Lemma startsWith_sound : forall s p, startsWith s p = true -> exists r, s = p ++ r.
Proof.
  intros s p H. unfold startsWith in H.
  destruct (strip_prefix p s) as [r|] eqn:E; [|discriminate].
  exists r. apply strip_prefix_sound, E.
Qed.

Lemma replace_first_prefix : forall p r, replace_first p [] (p ++ r) = r.
Proof.
  intros p r. unfold replace_first. rewrite find_first_eq, strip_prefix_app. reflexivity.
Qed.

Lemma line_paragraph_markdown : forall line,
  paragraph_markdown (line_paragraph line) = line.
Proof.
  intros line. unfold line_paragraph.
  destruct (startsWith line (js "# ")) eqn:H1;
    [|destruct (startsWith line (js "## ")) eqn:H2;
      [|destruct (startsWith line (js "### ")) eqn:H3]].
  - destruct (startsWith_sound _ _ H1) as [r ->].
    cbn [paragraph_markdown]. rewrite replace_first_prefix. reflexivity.
  - destruct (startsWith_sound _ _ H2) as [r ->].
    cbn [paragraph_markdown]. rewrite replace_first_prefix. reflexivity.
  - destruct (startsWith_sound _ _ H3) as [r ->].
    cbn [paragraph_markdown]. rewrite replace_first_prefix. reflexivity.
  - reflexivity.
Qed.

(* ------------------------------------------------------------------ *)
(** ** Download extensions *)

Definition is_upper (c : ascii) : bool :=
  let n := nat_of_ascii c in (65 <=? n) && (n <=? 90).

Lemma lower_char_not_upper : forall c, is_upper (lower_char c) = false.
Proof. intros [[] [] [] [] [] [] [] []]; reflexivity. Qed.

Lemma toLowerCase_no_upper : forall s, forallb (fun c => negb (is_upper c)) (toLowerCase s) = true.
Proof.
  induction s as [|c s IH]; [reflexivity|].
  unfold toLowerCase in *. simpl. rewrite lower_char_not_upper, IH. reflexivity.
Qed.

Lemma jeq_true : forall a b, jeq a b = true -> a = b.
Proof. intros a b H. unfold jeq in H. destruct (list_eq_dec ascii_dec a b); congruence. Qed.

Lemma jeq_refl : forall a, jeq a a = true.
Proof. intros a. unfold jeq. destruct (list_eq_dec ascii_dec a a); congruence. Qed.

(** A lower-cased key that [Object.prototype] has is "constructor" or
    "__proto__". *)
Lemma lower_proto_key : forall language,
  includes_str OBJECT_PROTOTYPE_KEYS (toLowerCase language) = true ->
  In (toLowerCase language) [js "constructor"; js "__proto__"].
Proof.
  intros language H. pose proof (toLowerCase_no_upper language) as Hu.
  unfold includes_str in H. apply existsb_exists in H as [k [Hk Heq]].
  apply jeq_true in Heq. rewrite Heq in *.
  simpl in Hk.
  repeat (destruct Hk as [<-|Hk]; [vm_compute in Hu; try discriminate;
                                    simpl; auto|]).
  destruct Hk.
Qed.

(* ------------------------------------------------------------------ *)
(** ** Invariants along schedules *)

Lemma trace_forall : forall (P : App -> Prop),
  (forall b e, P b -> P (exec_event b e)) ->
  forall sched a, P a -> Forall P (trace a sched).
Proof.
  intros P HP. induction sched as [|e sched IH]; intros a Ha.
  - constructor; [exact Ha|constructor].
  - simpl. constructor; [exact Ha|]. apply IH, HP, Ha.
Qed.


(* ------------------------------------------------------------------ *)
(** ** Download extensions, continued *)

Lemma download_ext_inherited : forall language,
  In (toLowerCase language) [js "constructor"; js "__proto__"] ->
  download_ext language = ExtInherited (toLowerCase language).
Proof.
  intros language H. unfold download_ext.
  destruct H as [H|[H|[]]]; rewrite <- H; vm_compute; reflexivity.
Qed.

Lemma download_ext_string : forall language,
  ~ In (toLowerCase language) [js "constructor"; js "__proto__"] ->
  exists e, download_ext language = ExtString e /\
    In e (map js ["py"; "js"; "ts"; "cpp"; "c"; "java"; "html"; "css"; "json"; "md";
                  "txt"]%string).
Proof.
  intros language H. unfold download_ext, extensions_lookup.
  destruct (find (fun kv => jeq (toLowerCase language) (fst kv)) EXTENSIONS)
    as [[k v]|] eqn:F.
  - apply find_some in F as [Hin _]. simpl in Hin.
    repeat (destruct Hin as [Hkv|Hin];
            [injection Hkv as <- <-; eexists; split; [reflexivity|simpl; tauto]|]).
    destruct Hin.
  - destruct (includes_str OBJECT_PROTOTYPE_KEYS (toLowerCase language)) eqn:P.
    + exfalso. exact (H (lower_proto_key language P)).
    + eexists. split; [reflexivity|simpl; tauto].
Qed.

(* ------------------------------------------------------------------ *)
(** ** The run invariant *)

Lemma update_by_id_in : forall i f ws s',
  In s' (update_by_id i f ws) ->
  exists s, In s ws /\ s' = (if Nat.eqb (id s) i then f s else s).
Proof.
  intros i f ws s' H. unfold update_by_id in H. apply in_map_iff in H as (s & <- & Hs).
  exists s. split; [exact Hs|reflexivity].
Qed.

Lemma update_by_id_ids : forall i f ws,
  (forall s, id (f s) = id s) -> map id (update_by_id i f ws) = map id ws.
Proof.
  intros i f ws Hf. unfold update_by_id. rewrite map_map. apply map_ext.
  intros s. destruct (Nat.eqb (id s) i); [apply Hf|reflexivity].
Qed.

Lemma update_by_id_keys : forall i f ws,
  (forall s, id (f s) = id s /\ description (f s) = description s) ->
  map (fun s => (id s, description s)) (update_by_id i f ws)
  = map (fun s => (id s, description s)) ws.
Proof.
  intros i f ws Hf. unfold update_by_id. rewrite map_map. apply map_ext.
  intros s. destruct (Nat.eqb (id s) i); [|reflexivity].
  destruct (Hf s) as [-> ->]. reflexivity.
Qed.

(** The ids of the steps after an update by id, with their new status. *)
Lemma update_status : forall i f st ws s',
  (forall s, id (f s) = id s /\ status (f s) = st) ->
  In s' (update_by_id i f ws) ->
  exists s, In s ws /\ id s' = id s /\
    ((id s = i /\ status s' = st) \/ (id s <> i /\ s' = s)).
Proof.
  intros i f st ws s' Hf H. destruct (update_by_id_in i f ws s' H) as (s & Hs & ->).
  exists s. split; [exact Hs|].
  destruct (Nat.eqb (id s) i) eqn:E.
  - apply Nat.eqb_eq in E. destruct (Hf s) as [H1 H2]. split; [exact H1|left; auto].
  - apply Nat.eqb_neq in E. split; [reflexivity|right; auto].
Qed.

Lemma in_remove_nth : forall (A : Type) k (l : list A) y, In y (remove_nth k l) -> In y l.
Proof.
  intros A k. induction k as [|k IH]; intros [|x l] y H; simpl in *; auto.
  destruct H as [H|H]; [left; exact H|right; exact (IH l y H)].
Qed.

Lemma remove_nth_nodup : forall (A B : Type) (g : A -> B) k l x,
  NoDup (map g l) -> nth_error l k = Some x ->
  NoDup (map g (remove_nth k l)) /\ (forall y, In y (remove_nth k l) -> g y <> g x).
Proof.
  intros A B g k. induction k as [|k IH]; intros [|z l] x Hnd Hx; try discriminate.
  - simpl in Hx. injection Hx as <-. simpl in Hnd. inversion Hnd as [|? ? Hz Hl]; subst.
    split; [exact Hl|]. intros y Hy Heq. apply Hz. rewrite <- Heq. apply in_map, Hy.
  - simpl in Hx. simpl in Hnd. inversion Hnd as [|? ? Hz Hl]; subst.
    destruct (IH l x Hl Hx) as [H1 H2]. split.
    + simpl. constructor; [|exact H1].
      intros Hin. apply Hz. apply in_map_iff in Hin as (y & Hy & Hin).
      rewrite <- Hy. apply in_map, (in_remove_nth _ k l y Hin).
    + intros y [<-|Hy]; [|exact (H2 y Hy)].
      intros Heq. apply Hz. rewrite Heq. apply in_map, (nth_error_In l k Hx).
Qed.

Lemma run_inv_render : forall b, run_inv b -> run_inv (exec_event b Render).
Proof.
  intros b Hb. simpl. destruct (pending_effect b); [exact Hb|].
  destruct (deps_dirty b); [|exact Hb].
  destruct Hb as (H1 & H2 & H3 & H4).
  split; [exact H1|]. split; [exact H2|]. split; [|exact H4].
  simpl. intros ws ex E. injection E as <- <-. split; [reflexivity|].
  intros s0 s Hs0 Hp Hs Hid. unfold is_pending in Hp.
  rewrite (H1 s s0 Hs Hs0 Hid). destruct (status s0); [reflexivity|discriminate..].
Qed.

Lemma run_inv_flush : forall b, run_inv b -> run_inv (exec_event b Flush).
Proof.
  intros b Hb. simpl. destruct (pending_effect b) as [[ws ex]|] eqn:Pe; [|exact Hb].
  destruct Hb as (H1 & H2 & H3 & H4).
  destruct (H3 ws ex Pe) as [Hids H3'].
  unfold executeNextStep_start. destruct ex; simpl.
  2:{ split; [exact H1|]. split; [exact H2|]. split; [discriminate|exact H4]. }
  destruct (find is_pending ws) as [ns|] eqn:F.
  2:{ split; [exact H1|]. split; [exact H2|]. split; [discriminate|exact H4]. }
  apply find_some in F as [Hns Hpend].
  assert (Hf : forall s, id (with_status PROCESSING s) = id s
                        /\ status (with_status PROCESSING s) = PROCESSING)
    by (intros s; split; reflexivity).
  simpl. split; [|split; [|split]].
  - intros s1' s2' Hs1 Hs2 Hid.
    destruct (update_status _ _ _ _ _ Hf Hs1) as (s1 & Hs1o & Hid1 & [[E1 St1]|[E1 ->]]);
    destruct (update_status _ _ _ _ _ Hf Hs2) as (s2 & Hs2o & Hid2 & [[E2 St2]|[E2 ->]]);
      try congruence.
    apply H1; assumption.
  - intros p s' Hp Hs' Hid.
    destruct (update_status _ _ _ _ _ Hf Hs') as (s & Hso & Hids' & [[E St]|[E ->]]);
      [exact St|].
    apply in_app_or in Hp as [Hp|[<-|[]]]; [exact (H2 p s Hp Hso Hid)|].
    simpl in Hid. congruence.
  - discriminate.
  - simpl. rewrite map_app. apply NoDup_app; [exact H4|constructor; [intros []|constructor]|].
    intros x Hx [Hy|[]]. simpl in Hy. subst x.
    apply in_map_iff in Hx as (p & Hpid & Hp).
    assert (Hin : In (id ns) (map id (workflowSteps b)))
      by (rewrite <- Hids; apply in_map, Hns).
    apply in_map_iff in Hin as (s & Hsid & Hs).
    assert (A : status s = PENDING) by exact (H3' ns s Hns Hpend Hs Hsid).
    assert (B : status s = PROCESSING) by (apply (H2 p s Hp Hs); congruence).
    congruence.
Qed.

Lemma run_inv_complete : forall b k model, run_inv b -> run_inv (exec_event b (Complete k model)).
Proof.
  intros b k model Hb. simpl.
  destruct (nth_error (in_flight b) k) as [[ns ws]|] eqn:Nk; [|exact Hb].
  destruct Hb as (H1 & H2 & H3 & H4).
  destruct (remove_nth_nodup _ _ (fun p => id (fst p)) k _ _ H4 Nk) as [Hnd Hother].
  assert (Hcur : forall s, In s (workflowSteps b) -> id s = id ns -> status s = PROCESSING)
    by (intros s Hs Hid; exact (H2 (ns, ws) s (nth_error_In _ _ Nk) Hs Hid)).
  assert (Gen : forall f st, (forall s, id (f s) = id s /\ status (f s) = st) ->
    run_inv (set_steps (update_by_id (id ns) f (workflowSteps b))
                       (set_in_flight (remove_nth k (in_flight b)) b))).
  { intros f st Hf. simpl. split; [|split; [|split]].
    - intros s1' s2' Hs1 Hs2 Hid.
      destruct (update_status _ _ _ _ _ Hf Hs1) as (s1 & Hs1o & Hid1 & [[E1 St1]|[E1 ->]]);
      destruct (update_status _ _ _ _ _ Hf Hs2) as (s2 & Hs2o & Hid2 & [[E2 St2]|[E2 ->]]);
        try congruence.
      apply H1; assumption.
    - intros p s' Hp Hs' Hid.
      destruct (update_status _ _ _ _ _ Hf Hs') as (s & Hso & Hids' & [[E St]|[E ->]]).
      + exfalso. apply (Hother p Hp). simpl. congruence.
      + exact (H2 p s (in_remove_nth _ _ _ _ Hp) Hso Hid).
    - intros ws0 ex0 Hpe. destruct (H3 ws0 ex0 Hpe) as [Hids H3'].
      split.
      + simpl. rewrite Hids, update_by_id_ids; [reflexivity|]. intros s; apply Hf.
      + intros s0 s' Hs0 Hp Hs' Hid.
        destruct (update_status _ _ _ _ _ Hf Hs') as (s & Hso & Hids' & [[E St]|[E ->]]).
        * exfalso. assert (A : status s = PENDING) by (apply (H3' s0 s); congruence).
          rewrite (Hcur s Hso E) in A. discriminate.
        * exact (H3' s0 s Hs0 Hp Hso Hid).
    - exact Hnd. }
  destruct (executeWorkflowStep _ _ _ _) as [o|e]; unfold executeNextStep_finish.
  - apply (Gen (complete_step o) COMPLETED). intros s; split; reflexivity.
  - assert (G := Gen fail_step FAILED (fun s => conj eq_refl eq_refl)).
    destruct G as (G1 & G2 & G3 & G4). simpl in *.
    split; [exact G1|]. split; [exact G2|]. split; [exact G3|exact G4].
Qed.

Lemma run_inv_step : forall b e, run_inv b -> run_inv (exec_event b e).
Proof.
  intros b [| |k model] Hb.
  - apply run_inv_render, Hb.
  - apply run_inv_flush, Hb.
  - apply run_inv_complete, Hb.
Qed.

Lemma mk_steps_all_pending : forall gen i plan s,
  In s (mk_steps gen i plan) -> status s = PENDING.
Proof.
  intros gen i plan. revert i. induction plan as [|d plan IH]; intros i s H; [destruct H|].
  destruct H as [<-|H]; [reflexivity|exact (IH (S i) s H)].
Qed.

Lemma mk_steps_keys : forall gen i plan,
  map description (mk_steps gen i plan) = plan /\
  map id (mk_steps gen i plan) = map gen (seq i (length plan)).
Proof.
  intros gen i plan. revert i. induction plan as [|d plan IH]; intros i; [split; reflexivity|].
  destruct (IH (S i)) as [H1 H2]. simpl. rewrite H1, H2. split; reflexivity.
Qed.

Lemma run_from_inv : forall JSON_parse gen reply fc,
  run_inv (run_from JSON_parse gen reply fc).
Proof.
  intros JSON_parse gen reply fc. unfold run_from, handleCreateWorkflow. simpl.
  destruct (generateWorkflowPlan JSON_parse reply) as [plan|e]; simpl.
  - split; [|split; [intros p s []|split; [discriminate|constructor]]].
    intros s1 s2 H1 H2 _. rewrite (mk_steps_all_pending _ _ _ _ H1),
      (mk_steps_all_pending _ _ _ _ H2). reflexivity.
  - split; [intros s1 s2 []|split; [intros p s []|split; [discriminate|constructor]]].
Qed.

Lemma Forall2_update_by_id : forall (R : WorkflowStep -> WorkflowStep -> Prop) i f ws,
  (forall s, In s ws -> R s s) ->
  (forall s, In s ws -> id s = i -> R s (f s)) ->
  Forall2 R ws (update_by_id i f ws).
Proof.
  intros R i f ws Hr Hf. induction ws as [|s ws IH]; [constructor|].
  simpl. constructor.
  - destruct (Nat.eqb (id s) i) eqn:E.
    + apply Hf; [left; reflexivity|apply Nat.eqb_eq, E].
    + apply Hr. left. reflexivity.
  - apply IH; intros s' Hs'; [apply Hr|apply Hf]; right; exact Hs'.
Qed.

Definition step_le (s s' : WorkflowStep) : Prop :=
  id s = id s' /\ status_rank (status s) <= status_rank (status s')
  /\ (status_rank (status s) = 2 -> s' = s).

Lemma Forall2_step_le_refl : forall ws, Forall2 step_le ws ws.
Proof. induction ws; constructor; [repeat split; reflexivity|assumption]. Qed.

Lemma step_monotone : forall b e, run_inv b ->
  Forall2 step_le (workflowSteps b) (workflowSteps (exec_event b e)).
Proof.
  intros b e (H1 & H2 & H3 & H4). destruct e as [| |k model]; simpl.
  - destruct (pending_effect b); [apply Forall2_step_le_refl|].
    destruct (deps_dirty b); apply Forall2_step_le_refl.
  - destruct (pending_effect b) as [[ws ex]|] eqn:Pe; [|apply Forall2_step_le_refl].
    destruct (H3 ws ex eq_refl) as [_ H3'].
    unfold executeNextStep_start. destruct ex; simpl; [|apply Forall2_step_le_refl].
    destruct (find is_pending ws) as [ns|] eqn:F; simpl; [|apply Forall2_step_le_refl].
    apply find_some in F as [Hns Hp].
    apply Forall2_update_by_id; intros s Hs; [repeat split; reflexivity|].
    intros Hid. unfold step_le. rewrite (H3' ns s Hns Hp Hs Hid). repeat split; simpl; auto; discriminate.
  - destruct (nth_error (in_flight b) k) as [[ns ws]|] eqn:Nk; [|apply Forall2_step_le_refl].
    assert (Hcur : forall s, In s (workflowSteps b) -> id s = id ns -> status s = PROCESSING)
      by (intros s Hs Hid; exact (H2 (ns, ws) s (nth_error_In _ _ Nk) Hs Hid)).
    destruct (executeWorkflowStep _ _ _ _) as [o|err]; simpl;
      apply Forall2_update_by_id; intros s Hs; try (repeat split; reflexivity);
      intros Hid; unfold step_le; rewrite (Hcur s Hs Hid); repeat split; simpl; auto; discriminate.
Qed.

Lemma trace_nth_succ : forall sched a i b b',
  nth_error (trace a sched) i = Some b -> nth_error (trace a sched) (S i) = Some b' ->
  exists e, b' = exec_event b e.
Proof.
  induction sched as [|e sched IH]; intros a i b b' Hb Hb'.
  - destruct i; simpl in Hb'; [discriminate|destruct i; discriminate].
  - destruct i as [|i]; simpl in Hb, Hb'.
    + injection Hb as <-. exists e. destruct sched; simpl in Hb'; injection Hb' as <-; reflexivity.
    + exact (IH _ _ _ _ Hb Hb').
Qed.

Lemma trace_nth_inv : forall JSON_parse gen reply fc sched i b,
  nth_error (trace (run_from JSON_parse gen reply fc) sched) i = Some b -> run_inv b.
Proof.
  intros JSON_parse gen reply fc sched i b H.
  pose proof (trace_forall run_inv run_inv_step sched _ (run_from_inv JSON_parse gen reply fc))
    as HF.
  apply (proj1 (Forall_forall _ _) HF). apply (nth_error_In _ _ H).
Qed.

Lemma Forall2_nth : forall (A B : Type) (R : A -> B -> Prop) l l' k x,
  Forall2 R l l' -> nth_error l k = Some x -> exists y, nth_error l' k = Some y /\ R x y.
Proof.
  intros A B R l l' k x H. revert k. induction H as [|a b l l' Hab H IH]; intros k Hk.
  - destruct k; discriminate.
  - destruct k as [|k]; simpl in *; [injection Hk as <-; exists b; auto|exact (IH k Hk)].
Qed.

Lemma nth_error_pred : forall (A : Type) (l : list A) n x,
  nth_error l (S n) = Some x -> exists y, nth_error l n = Some y.
Proof.
  intros A l n x H. destruct (nth_error l n) as [y|] eqn:E; [exists y; reflexivity|].
  exfalso. apply nth_error_None in E. assert (Hl : S n < length l)
    by (apply nth_error_Some; rewrite H; discriminate). lia.
Qed.

(** Along a run, the status of step [k] only goes up. *)
Lemma run_status_rank_up : forall JSON_parse gen reply fc sched k d i b b2 x,
  nth_error (trace (run_from JSON_parse gen reply fc) sched) i = Some b ->
  nth_error (trace (run_from JSON_parse gen reply fc) sched) (i + d) = Some b2 ->
  status_at k b = Some x ->
  exists y, status_at k b2 = Some y /\ status_rank x <= status_rank y.
Proof.
  intros JSON_parse gen reply fc sched k d. induction d as [|d IH]; intros i b b2 x Hb Hb2 Hx.
  - rewrite Nat.add_0_r, Hb in Hb2. injection Hb2 as <-. exists x. auto.
  - rewrite Nat.add_succ_r in Hb2. destruct (nth_error_pred _ _ _ _ Hb2) as [bm Hbm].
    destruct (IH i b bm x Hb Hbm Hx) as (ym & Hym & Hle).
    destruct (trace_nth_succ _ _ _ _ _ Hbm Hb2) as [e ->].
    pose proof (step_monotone bm e (trace_nth_inv _ _ _ _ _ _ _ Hbm)) as HM.
    unfold status_at in Hym. destruct (nth_error (workflowSteps bm) k) as [sm|] eqn:Sm;
      [|discriminate]. injection Hym as <-.
    destruct (Forall2_nth _ _ _ _ _ _ _ HM Sm) as (s2 & Hs2 & _ & Hle2 & _).
    exists (status s2). unfold status_at. rewrite Hs2. split; [reflexivity|lia].
Qed.

Lemma exec_event_keys : forall b e,
  map (fun s => (id s, description s)) (workflowSteps (exec_event b e))
  = map (fun s => (id s, description s)) (workflowSteps b).
Proof.
  intros b [| |k model]; simpl.
  - destruct (pending_effect b); [reflexivity|]. destruct (deps_dirty b); reflexivity.
  - destruct (pending_effect b) as [[ws ex]|]; [|reflexivity].
    unfold executeNextStep_start. destruct ex; simpl; [|reflexivity].
    destruct (find is_pending ws); simpl; [|reflexivity].
    apply update_by_id_keys. intros s; split; reflexivity.
  - destruct (nth_error (in_flight b) k) as [[ns ws]|]; [|reflexivity].
    destruct (executeWorkflowStep _ _ _ _); simpl;
      apply update_by_id_keys; intros s; split; reflexivity.
Qed.

(* ================================================================== *)
(** * Claims *)

(** ** Thinking split *)

(** C4: when the raw output holds a matched [<think>]...[</think>] pair
    (the first [<think>], and the first [</think>] after it), the thinking
    trace is the trimmed text between the delimiters and the content is the
    trimmed text with the delimited region removed; the example output
    splits into "reasoning here" and "Final answer text"; when no delimiter
    pair occurs, the thinking trace is empty and the content is the whole
    input unchanged. *)
Theorem extractThinking_spec :
  (forall p m s,
     contains OPEN p = false -> contains CLOSE m = false ->
     extractThinking (p ++ OPEN ++ m ++ CLOSE ++ s)
     = {| split_thinking := trim m; split_content := trim (p ++ s) |})
  /\ extractThinking (js "<think>reasoning here</think>Final answer text")
     = {| split_thinking := js "reasoning here";
          split_content := js "Final answer text" |}
  /\ (forall t,
        ~ (exists p m s, t = p ++ OPEN ++ m ++ CLOSE ++ s) ->
        extractThinking t = {| split_thinking := []; split_content := t |}).
Proof.
  split; [|split].
  - intros p m s Hp Hm. unfold extractThinking.
    rewrite think_match_app by assumption. reflexivity.
  - vm_compute. reflexivity.
  - intros t Hno. unfold extractThinking.
    destruct (think_match t) as [[[b i] a]|] eqn:T; [|reflexivity].
    exfalso. apply Hno. exists b, i, a. exact (think_match_sound _ _ _ _ T).
Qed.

Lemma extractThinking_spec_witness :
  contains OPEN (js "Note: ") = false /\ contains CLOSE (js " plan ") = false /\
  extractThinking (js "Note: " ++ OPEN ++ js " plan " ++ CLOSE ++ js " done ")
  = {| split_thinking := trim (js " plan "); split_content := trim (js "Note: " ++ js " done ") |}.
Proof.
  split; [reflexivity|split; [reflexivity|]].
  apply (proj1 extractThinking_spec); reflexivity.
Defined.

(** C10: only the first matched pair is removed.  With a second pair
    anywhere after the first, that pair, delimiters included, is still in
    the content; with a [<think>] but no [</think>], the thinking trace is
    empty and the content is the input, opening delimiter included. *)
Theorem extractThinking_first_pair_only :
  (forall p m s1 m2 s2,
     contains OPEN p = false -> contains CLOSE m = false ->
     exists a b,
       split_content (extractThinking (p ++ OPEN ++ m ++ CLOSE ++ s1 ++ OPEN ++ m2 ++ CLOSE ++ s2))
       = a ++ (OPEN ++ m2 ++ CLOSE) ++ b)
  /\ (forall t,
        contains OPEN t = true -> contains CLOSE t = false ->
        extractThinking t = {| split_thinking := []; split_content := t |}).
Proof.
  split.
  - intros p m s1 m2 s2 Hp Hm. unfold extractThinking.
    rewrite think_match_app by assumption. cbv iota beta. cbn [split_content].
    replace (p ++ s1 ++ OPEN ++ m2 ++ CLOSE ++ s2)
      with ((p ++ s1) ++ (OPEN ++ m2 ++ CLOSE) ++ s2)
      by (rewrite <- !app_assoc; reflexivity).
    apply (trim_keeps (p ++ s1) _ s2 "<"%char (tl OPEN ++ m2 ++ CLOSE)
                      (OPEN ++ m2 ++ js "</think") ">"%char).
    + reflexivity.
    + rewrite <- !app_assoc. reflexivity.
    + reflexivity.
    + reflexivity.
  - intros t _ Hc. unfold extractThinking.
    destruct (think_match t) as [[[b i] a]|] eqn:T; [|reflexivity].
    apply think_match_sound in T. subst t.
    rewrite (app_assoc b), (app_assoc (b ++ OPEN)), contains_app in Hc. discriminate.
Qed.

Lemma extractThinking_first_pair_only_witness :
  contains OPEN (js "a") = false /\ contains CLOSE (js "x") = false /\
  exists a b,
    split_content (extractThinking (js "a" ++ OPEN ++ js "x" ++ CLOSE ++ js " "
                                    ++ OPEN ++ js "y" ++ CLOSE ++ js "z"))
    = a ++ (OPEN ++ js "y" ++ CLOSE) ++ b.
Proof.
  split; [reflexivity|split; [reflexivity|]].
  apply (proj1 extractThinking_first_pair_only); reflexivity.
Defined.

(** ** Context chaining *)

Definition stepA_empty : WorkflowStep :=
  {| id := 1; description := js "Analyze the code for bugs"; status := COMPLETED;
     result := Some []; thinking := Some (js "nothing to say") |}.

Definition stepB_pending : WorkflowStep :=
  {| id := 2; description := js "Generate the fixed script"; status := PENDING;
     result := None; thinking := None |}.

(** C5 (counterexample): a Completed step whose result is the empty string
    (what [executeWorkflowStep] returns when the reply is only a thinking
    region) is left out: the next step's context does not contain its
    description. *)
Lemma historyContext_drops_empty_result :
  executeWorkflowStep [] stepA_empty []
    (fun _ => StreamDone [js "<think>nothing to say</think>"])
  = Resolved {| out_result := []; out_thinking := js "nothing to say" |}
  /\ status stepA_empty = COMPLETED
  /\ historyContext [stepA_empty; stepB_pending] = []
  /\ contains (description stepA_empty) (historyContext [stepA_empty; stepB_pending]) = false.
Proof. vm_compute. repeat split. Qed.

Definition stepA_done : WorkflowStep :=
  {| id := 1; description := js "A"; status := COMPLETED;
     result := Some (js "X"); thinking := None |}.

Definition stepC_pending : WorkflowStep :=
  {| id := 3; description := js "C"; status := PENDING; result := None; thinking := None |}.

(** C5 (amended): the context holds, in list order, the entry (description
    and result) of every Completed step with a non-empty result, and steps
    that are not such (Pending, Processing, Failed, or Completed with an
    empty or absent result) contribute nothing; with A Completed with
    result "X" and B, C Pending, the context is exactly A's entry. *)
Theorem historyContext_completed_only :
  (forall l1 s l2, history_kept s = true ->
     exists a b, historyContext (l1 ++ s :: l2) = a ++ history_entry s ++ b)
  /\ (forall l1 s1 l2 s2 l3, history_kept s1 = true -> history_kept s2 = true ->
        exists a b c, historyContext (l1 ++ s1 :: l2 ++ s2 :: l3)
                      = a ++ history_entry s1 ++ b ++ history_entry s2 ++ c)
  /\ (forall l1 s l2, history_kept s = false ->
        historyContext (l1 ++ s :: l2) = historyContext (l1 ++ l2))
  /\ historyContext [stepA_done; stepB_pending; stepC_pending] = history_entry stepA_done.
Proof.
  unfold historyContext. split; [|split; [|split]].
  - intros l1 s l2 Hs. rewrite filter_app. simpl filter. rewrite Hs, map_app.
    apply join_mid.
  - intros l1 s1 l2 s2 l3 H1 H2. rewrite filter_app. simpl filter. rewrite H1.
    rewrite filter_app. simpl filter. rewrite H2, map_app. simpl map.
    rewrite map_app. apply join_two.
  - intros l1 s l2 Hs. rewrite !filter_app. simpl filter. rewrite Hs. reflexivity.
  - reflexivity.
Qed.

Lemma historyContext_completed_only_witness :
  history_kept stepA_done = true /\
  exists a b, historyContext ([stepB_pending] ++ stepA_done :: [stepC_pending])
              = a ++ history_entry stepA_done ++ b.
Proof.
  split; [reflexivity|].
  apply (proj1 historyContext_completed_only); reflexivity.
Defined.

(** ** File classification *)

Definition DOCX_MIME : jstr :=
  js "application/vnd.openxmlformats-officedocument.wordprocessingml.document".

(** C8: the category is decided in the stated precedence, where the
    extension is the lower-cased text after the last '.' of the name:
    code extension, then PDF type or extension, then an "image/" type, then
    document extension or a type containing "text" or "document", else
    unknown; "main.cpp" is code whatever its type and "report.docx" with the
    DOCX media type is a document. *)
Theorem getFileCategory_precedence :
  (forall f t,
     let ce := includes_str CODE_EXTS (file_ext f) in
     let pc := jeq t (js "application/pdf") || jeq (file_ext f) (js "pdf") in
     let ic := startsWith t (js "image/") in
     let dc := includes_str DOC_EXTS (file_ext f) || contains (js "text") t
               || contains (js "document") t in
     (getFileCategory f t = code <-> ce = true)
     /\ (getFileCategory f t = pdf <-> ce = false /\ pc = true)
     /\ (getFileCategory f t = image <-> ce = false /\ pc = false /\ ic = true)
     /\ (getFileCategory f t = document
         <-> ce = false /\ pc = false /\ ic = false /\ dc = true)
     /\ (getFileCategory f t = unknown
         <-> ce = false /\ pc = false /\ ic = false /\ dc = false))
  /\ (forall t, getFileCategory (js "main.cpp") t = code)
  /\ getFileCategory (js "report.docx") DOCX_MIME = document.
Proof.
  split; [|split].
  - intros f t ce pc ic dc. unfold getFileCategory. cbv zeta.
    fold ce pc ic dc.
    destruct ce, pc, ic, dc; intuition discriminate.
  - intros t. reflexivity.
  - vm_compute. reflexivity.
Qed.

(** ** Code extraction and report classification *)







(** ** Plan generation failures *)

(** C6 (counterexample): a reply with no array literal is a failed plan
    generation, yet no error is shown: the fallback string becomes a
    one-step workflow and execution starts. *)
Lemma handleCreateWorkflow_no_array_starts_run :
  let a' := handleCreateWorkflow (fun _ => None) (fun i => i)
              (PlanText (js "Sorry, I cannot produce a plan.")) (app_init [] true) in
  create_enabled (app_init [] true) = true
  /\ error a' = None
  /\ map description (workflowSteps a') = [PLAN_FALLBACK]
  /\ map status (workflowSteps a') = [PENDING]
  /\ isExecuting a' = true.
Proof. vm_compute. repeat split. Qed.

(** C6 (amended): when the model call fails or the extracted array text
    does not parse, the workflow error is shown, no step exists and the
    agent is idle; when the reply holds no array literal, no error is shown
    and the one-step fallback plan is created and its execution started. *)
Theorem handleCreateWorkflow_plan_failures :
  forall JSON_parse gen a, create_enabled a = true ->
  (forall e, idle_with_error (handleCreateWorkflow JSON_parse gen (PlanError e) a))
  /\ (forall r m, array_match r = Some m -> JSON_parse m = None ->
        idle_with_error (handleCreateWorkflow JSON_parse gen (PlanText r) a))
  /\ (forall r, array_match r = None ->
        let a' := handleCreateWorkflow JSON_parse gen (PlanText r) a in
        error a' = None /\ workflowSteps a' = mk_steps gen 0 [PLAN_FALLBACK]
        /\ isAnalyzing a' = false /\ isExecuting a' = true).
Proof.
  intros JSON_parse gen a Ha. split; [|split].
  - intros e. eapply handleCreateWorkflow_rejected; [exact Ha|reflexivity].
  - intros r m Hm Hp. eapply handleCreateWorkflow_rejected; [exact Ha|].
    unfold generateWorkflowPlan. rewrite Hm, Hp. reflexivity.
  - intros r Hr a'. subst a'.
    destruct (create_enabled_inv a Ha) as (H1 & H2 & H3).
    unfold handleCreateWorkflow. rewrite H1. unfold generateWorkflowPlan. rewrite Hr.
    cbn. auto.
Qed.

Lemma handleCreateWorkflow_plan_failures_witness :
  create_enabled (app_init [] true) = true /\
  idle_with_error (handleCreateWorkflow (fun _ => None) (fun i => i)
                     (PlanText (js "[Analyze, ]")) (app_init [] true)).
Proof.
  split; [reflexivity|].
  apply (proj1 (proj2 (handleCreateWorkflow_plan_failures (fun _ => None) (fun i => i)
                         (app_init [] true) eq_refl)) _ (js "[Analyze, ]")).
  - reflexivity.
  - reflexivity.
Defined.

(** C7: with no array literal in the reply the generator resolves to the
    single-element fallback plan and does not throw; with an array literal
    whose text does not parse, the generator rejects (the parse error
    propagates) and the caller shows the error and leaves the agent idle
    with no step created. *)
Theorem generateWorkflowPlan_failure_modes :
  forall JSON_parse gen a response,
  (array_match response = None ->
     generateWorkflowPlan JSON_parse (PlanText response) = Resolved [PLAN_FALLBACK])
  /\ (forall m, array_match response = Some m -> JSON_parse m = None ->
        (exists e, generateWorkflowPlan JSON_parse (PlanText response) = Rejected e)
        /\ (create_enabled a = true ->
              idle_with_error (handleCreateWorkflow JSON_parse gen (PlanText response) a))).
Proof.
  intros JSON_parse gen a response. split.
  - intros H. unfold generateWorkflowPlan. rewrite H. reflexivity.
  - intros m Hm Hp.
    assert (Hr : generateWorkflowPlan JSON_parse (PlanText response)
                 = Rejected (ErrorObj (js "Unexpected token in JSON")))
      by (unfold generateWorkflowPlan; rewrite Hm, Hp; reflexivity).
    split.
    + eexists. exact Hr.
    + intros Ha. exact (handleCreateWorkflow_rejected _ _ _ _ _ Ha Hr).
Qed.

Lemma generateWorkflowPlan_failure_modes_witness :
  generateWorkflowPlan (fun _ => None) (PlanText (js "No plan, sorry."))
    = Resolved [PLAN_FALLBACK]
  /\ idle_with_error (handleCreateWorkflow (fun _ => None) (fun i => i)
                        (PlanText (js "Plan: [step one, step two]")) (app_init [] true)).
Proof.
  split.
  - apply (proj1 (generateWorkflowPlan_failure_modes (fun _ => None) (fun i => i)
                    (app_init [] true) (js "No plan, sorry."))).
    reflexivity.
  - apply (proj2 (proj2 (generateWorkflowPlan_failure_modes (fun _ => None) (fun i => i)
                    (app_init [] true) (js "Plan: [step one, step two]"))
                    (js "[step one, step two]") eq_refl eq_refl)).
    reflexivity.
Defined.

(** ** The execution loop *)

(** C1 (code_bug evaluation): the executor does turn a stream error into a
    resolved result with the error text as content and empty thinking, but
    because it resolves, the loop's success branch marks the step
    Completed, not Failed, and the run goes on: on the two-step plan, the
    first call fails with "network error", its step ends Completed with
    content "Error executing step: network error", and the second step is
    still run to Completed afterwards. *)
Theorem stream_error_marks_step_completed :
  let tr := trace two_step_run
              [Render; Flush; Render; Flush; Complete 0 network_error;
               Render; Flush; Complete 0 good_reply] in
  executeWorkflowStep [] (hd (Build_WorkflowStep 0 [] PENDING None None)
                              (workflowSteps two_step_run)) [] network_error
  = Resolved {| out_result := js "Error executing step: network error"; out_thinking := [] |}
  /\ map statuses tr
     = [[PENDING; PENDING]; [PENDING; PENDING]; [PROCESSING; PENDING];
        [PROCESSING; PENDING]; [PROCESSING; PROCESSING];
        [COMPLETED; PROCESSING]; [COMPLETED; PROCESSING];
        [COMPLETED; PROCESSING]; [COMPLETED; COMPLETED]]
  /\ option_map result (nth_error (workflowSteps (last tr two_step_run)) 0)
     = Some (Some (js "Error executing step: network error")).
Proof. vm_compute. repeat split. Qed.

(** C2 (code_bug evaluation): the effect depends on [workflowSteps], so
    marking step 0 Processing re-runs it, and the re-run finds step 1 as
    the first Pending step and starts it while step 0 is still Processing
    and has no result. *)
Theorem executor_starts_next_step_early :
  let tr := trace two_step_run [Render; Flush; Render; Flush] in
  map statuses tr
  = [[PENDING; PENDING]; [PENDING; PENDING]; [PROCESSING; PENDING];
     [PROCESSING; PENDING]; [PROCESSING; PROCESSING]]
  /\ map (fun p => id (fst p)) (in_flight (last tr two_step_run)) = [0; 1]
  /\ option_map result (nth_error (workflowSteps (last tr two_step_run)) 0) = Some None.
Proof. vm_compute. repeat split. Qed.




(* ================================================================== *)
(** * Further properties *)

(** getFileContent builds the prompt's files block file by file: the block
    of a concatenation of file lists is the concatenation of their blocks. *)
Theorem getFileContent_app : forall l1 l2,
  getFileContent (l1 ++ l2) = getFileContent l1 ++ getFileContent l2.
Proof.
  intros l1 l2. unfold getFileContent at 1. rewrite fold_left_app.
  apply fold_entries_acc.
Qed.

(** A file whose content is [null] or the empty string adds nothing to the
    files block, wherever it sits in the list. *)
Theorem getFileContent_skips_empty : forall l1 f l2,
  content f = None \/ content f = Some (TextContent []) ->
  getFileContent (l1 ++ f :: l2) = getFileContent (l1 ++ l2).
Proof.
  intros l1 f l2 H.
  rewrite !getFileContent_app, getFileContent_cons.
  replace (file_entry f) with (@nil ascii); [reflexivity|].
  unfold file_entry. destruct H as [H|H]; rewrite H; reflexivity.
Qed.

Lemma getFileContent_skips_empty_witness :
  getFileContent ([] ++ {| file_id := 1; name := js "a.txt"; file_type := js "text/plain";
                            size := 0; content := Some (TextContent []);
                            category := document |} :: [])
  = getFileContent ([] ++ []).
Proof.
  apply getFileContent_skips_empty. right. reflexivity.
Defined.

(** A base64 data URL adds only an attachment note naming the file and the
    URL's MIME type; the encoded payload never reaches the prompt. *)
Theorem getFileContent_data_url_note : forall f mimeType payload,
  content f = Some (TextContent (js "data:" ++ mimeType ++ B64_MARK ++ payload)) ->
  contains B64_MARK mimeType = false -> no_lt mimeType = true -> no_lt payload = true ->
  getFileContent [f] = NL ++ js "[File Attachment: " ++ name f ++ js " (" ++ mimeType
                       ++ js ") - Binary content not displayable]" ++ NL.
Proof.
  intros f m p Hc Hm1 Hm2 Hp. rewrite getFileContent_cons, app_nil_r.
  apply (file_entry_data f _ m p Hc).
  - apply startsWith_app.
  - apply data_url_match_app; assumption.
Qed.

Lemma getFileContent_data_url_note_witness :
  getFileContent [{| file_id := 1; name := js "cat.png"; file_type := js "image/png";
                     size := 3;
                     content := Some (TextContent (js "data:" ++ js "image/png" ++ B64_MARK
                                                   ++ js "iVBO"));
                     category := image |}]
  = NL ++ js "[File Attachment: " ++ js "cat.png" ++ js " (" ++ js "image/png"
    ++ js ") - Binary content not displayable]" ++ NL.
Proof.
  apply (getFileContent_data_url_note
           {| file_id := 1; name := js "cat.png"; file_type := js "image/png";
              size := 3;
              content := Some (TextContent (js "data:" ++ js "image/png" ++ B64_MARK
                                            ++ js "iVBO"));
              category := image |} (js "image/png") (js "iVBO")); reflexivity.
Defined.

(** A text content that starts with "data:" but contains no ";base64," is
    dropped: the file adds nothing to the prompt. *)
Theorem getFileContent_drops_data_text : forall f s,
  content f = Some (TextContent s) -> startsWith s (js "data:") = true ->
  contains B64_MARK s = false -> getFileContent [f] = [].
Proof.
  intros f s Hc Hs Hb. rewrite getFileContent_cons, app_nil_r.
  unfold file_entry. rewrite Hc. destruct s as [|c s']; [discriminate|].
  rewrite Hs. unfold data_url_match.
  destruct (strip_prefix (js "data:") (c :: s')) as [r|] eqn:E; [|reflexivity].
  destruct (lazy_mime r) as [[g rest]|] eqn:L; [|reflexivity].
  exfalso. apply lazy_mime_contains in L. apply strip_prefix_sound in E.
  rewrite E, (contains_app_r _ _ _ L) in Hb. discriminate.
Qed.

Lemma getFileContent_drops_data_text_witness :
  getFileContent [{| file_id := 1; name := js "notes.txt"; file_type := js "text/plain";
                     size := 14; content := Some (TextContent (js "data: 1, 2, 3"));
                     category := document |}] = [].
Proof.
  apply (getFileContent_drops_data_text
           {| file_id := 1; name := js "notes.txt"; file_type := js "text/plain";
              size := 14; content := Some (TextContent (js "data: 1, 2, 3"));
              category := document |} (js "data: 1, 2, 3")); reflexivity.
Defined.

(** processFiles adds a batch all or nothing: when one read of the batch
    rejects, the file list is left as it was; when all resolve, the new
    records follow the previous files in the batch's order. *)
Theorem processFiles_all_or_nothing : forall prev batch,
  ((exists i f e, In (i, f, Rejected e) batch) -> processFiles prev batch = prev) /\
  (forall reads : list (nat * File * jstr),
     batch = map (fun '(i, f, c) => (i, f, Resolved c)) reads ->
     processFiles prev batch = prev ++ map (fun '(i, f, c) => uploaded_of i f c) reads).
Proof.
  intros prev batch. split.
  - intros (i & f & e & H). unfold processFiles.
    rewrite (read_batch_rejected batch i f e H). reflexivity.
  - intros reads ->. unfold processFiles.
    assert (H : read_batch (map (fun '(i, f, c) => (i, f, Resolved c)) reads)
                = Some (map (fun '(i, f, c) => uploaded_of i f c) reads)).
    { induction reads as [|[[i f] c] reads IH]; [reflexivity|].
      simpl. rewrite IH. reflexivity. }
    rewrite H. reflexivity.
Qed.

Lemma processFiles_all_or_nothing_witness :
  processFiles [] [(1, {| f_name := js "a.py"; f_type := []; f_bytes := [] |},
                    Resolved (js "x"));
                   (2, {| f_name := js "b.pdf"; f_type := js "application/pdf";
                          f_bytes := [] |}, Rejected NonError)] = [].
Proof.
  apply (proj1 (processFiles_all_or_nothing [] _)).
  exists 2, {| f_name := js "b.pdf"; f_type := js "application/pdf"; f_bytes := [] |},
    NonError.
  right. left. reflexivity.
Defined.



(** getFileCategory ignores the letter case of the file name: two names
    with the same lower-case form get the same category for the same MIME
    type. *)
Theorem getFileCategory_case_insensitive : forall n1 n2 t,
  toLowerCase n1 = toLowerCase n2 -> getFileCategory n1 t = getFileCategory n2 t.
Proof.
  intros n1 n2 t H. unfold getFileCategory. rewrite !file_ext_lower, H. reflexivity.
Qed.

Lemma getFileCategory_case_insensitive_witness :
  toLowerCase (js "Main.CPP") = toLowerCase (js "main.cpp") /\
  getFileCategory (js "Main.CPP") [] = getFileCategory (js "main.cpp") [].
Proof.
  split; [reflexivity|]. apply getFileCategory_case_insensitive. reflexivity.
Defined.

(** A file that getFileCategory classifies as an image is read by
    readFileContent as a data URL, unless its lower-cased name ends in
    ".docx" (then it takes the DOCX branch). *)
Theorem category_image_read_as_data_url : forall n t bytes,
  getFileCategory n t = image ->
  endsWith (toLowerCase n) (js ".docx") = false ->
  read_path_of {| f_name := n; f_type := t; f_bytes := bytes |} = ReadDataURL.
Proof.
  intros n t bytes H Hd. unfold getFileCategory in H.
  destruct (includes_str CODE_EXTS (file_ext n)); [discriminate|].
  destruct (jeq t (js "application/pdf") || jeq (file_ext n) (js "pdf")) eqn:P;
    [discriminate|].
  apply orb_false_iff in P as [P1 P2].
  unfold read_path_of. cbn [f_name f_type]. rewrite Hd, P1. cbn [orb].
  destruct (endsWith (toLowerCase n) (js ".pdf")) eqn:E.
  - apply endsWith_pdf_ext in E. rewrite E in P2. discriminate.
  - destruct (startsWith t (js "image/")); [reflexivity|].
    destruct (_ || _ || _); discriminate.
Qed.

Lemma category_image_read_as_data_url_witness :
  getFileCategory (js "photo.JPG") (js "image/jpeg") = image /\
  endsWith (toLowerCase (js "photo.JPG")) (js ".docx") = false /\
  read_path_of {| f_name := js "photo.JPG"; f_type := js "image/jpeg"; f_bytes := [] |}
  = ReadDataURL.
Proof.
  split; [reflexivity|]. split; [reflexivity|].
  apply category_image_read_as_data_url; reflexivity.
Defined.

(** The text generateWorkflowPlan hands to JSON.parse runs from the first
    "[" of the reply to its last "]": no "[" comes before it and no "]"
    after it.  There is no match (and the fallback plan is used) exactly
    when no "[" of the reply is followed by a "]". *)
Theorem array_match_first_to_last : forall r,
  (forall m, array_match r = Some m ->
     exists pre mid post, r = pre ++ m ++ post /\ m = "["%char :: mid ++ ["]"%char]
       /\ ~ In "["%char pre /\ ~ In "]"%char post) /\
  (array_match r = None <-> forall x y z, r <> x ++ "["%char :: y ++ "]"%char :: z).
Proof.
  intros r. split; [apply array_match_some|]. split.
  - intros H x y z ->. exact (array_match_pair x y z H).
  - intros H. destruct (array_match r) as [m|] eqn:E; [|reflexivity].
    exfalso. destruct (array_match_some r m E) as (pre & mid & post & -> & -> & _).
    apply (H pre mid post). rewrite <- app_comm_cons, <- app_assoc. reflexivity.
Qed.

Lemma array_match_first_to_last_witness :
  exists pre mid post,
    js "Plan: [1] see [2]." = pre ++ js "[1] see [2]" ++ post
    /\ js "[1] see [2]" = "["%char :: mid ++ ["]"%char]
    /\ ~ In "["%char pre /\ ~ In "]"%char post.
Proof.
  apply (proj1 (array_match_first_to_last (js "Plan: [1] see [2].")) (js "[1] see [2]")).
  reflexivity.
Defined.

(** The code extractCode returns never contains a "```" fence, and its
    language is either the default "txt" or a non-empty run of word
    characters. *)
Theorem extractCode_shape : forall markdown cd,
  extractCode markdown = Some cd ->
  contains FENCE (code_text cd) = false /\
  (language cd = js "txt" \/ (language cd <> [] /\ forallb is_word (language cd) = true)).
Proof.
  intros markdown cd H. unfold extractCode in H.
  destruct (code_match markdown) as [[lang body]|] eqn:E; [|discriminate].
  injection H as <-. cbn [code_text language].
  destruct (code_match_at markdown _ E) as [t' Ht].
  destruct (code_at_shape t' lang body Ht) as [Hb [->|(w & -> & Hw & Hw')]].
  - split; [exact Hb|left; reflexivity].
  - split; [exact Hb|right; split; assumption].
Qed.

Lemma extractCode_shape_witness :
  contains FENCE (js "x = 1") = false /\
  (js "js" = js "txt" \/ (js "js" <> [] /\ forallb is_word (js "js") = true)).
Proof.
  apply (extractCode_shape (FENCE ++ js "js" ++ NL ++ js "x = 1" ++ FENCE)
           {| language := js "js"; code_text := js "x = 1" |}).
  reflexivity.
Defined.

(** getThinkingPreview yields at most three lines joined by newlines; each
    is a non-blank line of the thinking text, and previewing a preview
    returns it unchanged. *)
Theorem getThinkingPreview_lines : forall t,
  exists ls, getThinkingPreview t = join NL ls /\ length ls <= 3 /\
    Forall (fun l => nonblank l = true /\ ~ In (ascii_of_nat 10) l
                     /\ In l (split_on (ascii_of_nat 10) t)) ls /\
    getThinkingPreview (getThinkingPreview t) = getThinkingPreview t.
Proof.
  intros t.
  set (ls := firstn 3 (filter nonblank (split_on (ascii_of_nat 10) t))).
  assert (HF : Forall (fun l => nonblank l = true /\ ~ In (ascii_of_nat 10) l
                                /\ In l (split_on (ascii_of_nat 10) t)) ls).
  { apply Forall_forall. intros l Hl. apply in_firstn_in, filter_In in Hl as [Hin Hnb].
    split; [exact Hnb|split; [|exact Hin]].
    exact (proj1 (Forall_forall _ _) (split_on_segments _ t) l Hin). }
  assert (HL : length ls <= 3) by apply firstn_le_length.
  exists ls. split; [reflexivity|]. split; [exact HL|]. split; [exact HF|].
  unfold getThinkingPreview at 2 3. fold ls.
  destruct (list_eq_dec (list_eq_dec ascii_dec) ls []) as [E0|E0];
    [rewrite E0; reflexivity|].
  unfold getThinkingPreview.
  rewrite split_join; [|exact E0|].
  - rewrite (forallb_filter_id nonblank ls).
    + rewrite firstn_all2 by exact HL. reflexivity.
    + apply forallb_forall. intros l Hl. apply (proj1 (Forall_forall _ _) HF l Hl).
  - apply Forall_forall. intros l Hl. apply (proj1 (Forall_forall _ _) HF l Hl).
Qed.

(** createDocxBlob makes one paragraph per line of the text, and writing
    each paragraph back as the markdown line it came from (with "# ",
    "## " or "### " before a heading) and joining them with newlines gives
    back the text. *)
Theorem docx_children_roundtrip : forall text,
  join NL (map paragraph_markdown (docx_children text)) = text /\
  length (docx_children text) = S (count_occ ascii_dec text (ascii_of_nat 10)).
Proof.
  intros text. unfold docx_children. split.
  - rewrite map_map, (map_ext _ (fun l => l) line_paragraph_markdown), map_id.
    apply join_split.
  - rewrite length_map. apply length_split_on.
Qed.

(** handleDownloadCode's file extension is py, js, ts, cpp, c, java, html,
    css, json, md or txt, except when the lower-cased language is
    "constructor" or "__proto__": the lookup then returns a member
    inherited from Object.prototype, which ends up in the file name. *)
Theorem download_ext_values : forall language,
  ((exists e, download_ext language = ExtString e /\
     In e (map js ["py"; "js"; "ts"; "cpp"; "c"; "java"; "html"; "css"; "json"; "md";
                   "txt"]%string))
   <-> ~ In (toLowerCase language) [js "constructor"; js "__proto__"]) /\
  (In (toLowerCase language) [js "constructor"; js "__proto__"] ->
   download_ext language = ExtInherited (toLowerCase language)).
Proof.
  intros language. split; [split|apply download_ext_inherited].
  - intros (e & He & _) Hin. rewrite (download_ext_inherited language Hin) in He.
    discriminate.
  - apply download_ext_string.
Qed.

Lemma download_ext_values_witness :
  download_ext (js "Constructor") = ExtInherited (js "constructor").
Proof.
  apply (proj2 (download_ext_values (js "Constructor"))). left. reflexivity.
Defined.


(** In a run created from a reply whose array parses to a plan, every state
    reached by any schedule of renders, effects and returning calls has
    exactly the plan's steps, in plan order, with the ids drawn for them:
    steps are never added, dropped, reordered or renamed. *)
Theorem run_keeps_plan : forall JSON_parse gen r m plan fc sched,
  array_match r = Some m -> JSON_parse m = Some plan ->
  Forall (fun b => map description (workflowSteps b) = plan /\
                   map id (workflowSteps b) = map gen (seq 0 (length plan)))
         (trace (run_from JSON_parse gen (PlanText r) fc) sched).
Proof.
  intros JSON_parse gen r m plan fc sched Hm Hp.
  assert (H0 : workflowSteps (run_from JSON_parse gen (PlanText r) fc) = mk_steps gen 0 plan).
  { unfold run_from, handleCreateWorkflow, generateWorkflowPlan. simpl.
    rewrite Hm, Hp. reflexivity. }
  assert (HF : Forall (fun b => map (fun s => (id s, description s)) (workflowSteps b)
                                = map (fun s => (id s, description s)) (mk_steps gen 0 plan))
                      (trace (run_from JSON_parse gen (PlanText r) fc) sched)).
  { apply trace_forall; [|rewrite H0; reflexivity].
    intros b e Hb. rewrite exec_event_keys. exact Hb. }
  destruct (mk_steps_keys gen 0 plan) as [Kd Ki].
  apply Forall_forall. intros b Hb. apply (proj1 (Forall_forall _ _) HF) in Hb.
  split.
  - rewrite <- Kd. apply (f_equal (map snd)) in Hb. rewrite !map_map in Hb. exact Hb.
  - rewrite <- Ki. apply (f_equal (map fst)) in Hb. rewrite !map_map in Hb. exact Hb.
Qed.

Lemma run_keeps_plan_witness :
  Forall (fun b => map description (workflowSteps b)
                   = [js "Analyze the code"; js "Write the fixed code"] /\
                   map id (workflowSteps b) = map (fun i => i) (seq 0 2))
         (trace (run_from plan_parse (fun i => i) (PlanText plan_text) [])
                [Render; Flush; Render; Flush; Complete 1 good_reply; Complete 0 good_reply]).
Proof.
  apply (run_keeps_plan plan_parse (fun i => i) plan_text plan_text); reflexivity.
Defined.

(** Along any schedule of a run, no step's status ever moves back: between
    two consecutive states each step keeps its id, goes from Pending to
    Processing to a final status, never the other way, and a step with a
    final status (Completed or Failed) stays exactly as it is. *)
Theorem run_status_monotone : forall JSON_parse gen reply fc sched i b b',
  nth_error (trace (run_from JSON_parse gen reply fc) sched) i = Some b ->
  nth_error (trace (run_from JSON_parse gen reply fc) sched) (S i) = Some b' ->
  Forall2 (fun s s' => id s = id s' /\ status_rank (status s) <= status_rank (status s')
                       /\ (status_rank (status s) = 2 -> s' = s))
          (workflowSteps b) (workflowSteps b').
Proof.
  intros JSON_parse gen reply fc sched i b b' Hb Hb'.
  destruct (trace_nth_succ _ _ _ _ _ Hb Hb') as [e ->].
  exact (step_monotone b e (trace_nth_inv _ _ _ _ _ _ _ Hb)).
Qed.

Lemma run_status_monotone_witness :
  Forall2 (fun s s' => id s = id s' /\ status_rank (status s) <= status_rank (status s')
                       /\ (status_rank (status s) = 2 -> s' = s))
    (workflowSteps (exec_event two_step_run Render))
    (workflowSteps (exec_event (exec_event two_step_run Render) Flush)).
Proof.
  apply (run_status_monotone plan_parse (fun i => i) (PlanText plan_text) []
           [Render; Flush] 1); reflexivity.
Defined.

(** Each step of a run is started at most once: once a transition has moved
    step [k] from Pending to Processing, no later transition starts it
    again, whatever the schedule. *)
Theorem run_starts_step_once : forall JSON_parse gen reply fc sched i j k b1 b1' b2 b2',
  i < j ->
  nth_error (trace (run_from JSON_parse gen reply fc) sched) i = Some b1 ->
  nth_error (trace (run_from JSON_parse gen reply fc) sched) (S i) = Some b1' ->
  nth_error (trace (run_from JSON_parse gen reply fc) sched) j = Some b2 ->
  nth_error (trace (run_from JSON_parse gen reply fc) sched) (S j) = Some b2' ->
  starts_step b1 b1' k -> ~ starts_step b2 b2' k.
Proof.
  intros JSON_parse gen reply fc sched i j k b1 b1' b2 b2' Hij H1 H1' H2 H2' [_ Hs] [Hp _].
  replace j with (S i + (j - S i)) in H2 by lia.
  destruct (run_status_rank_up _ _ _ _ _ k (j - S i) (S i) b1' b2 PROCESSING H1' H2 Hs)
    as (y & Hy & Hle).
  rewrite Hp in Hy. injection Hy as <-. simpl in Hle. lia.
Qed.

Lemma run_starts_step_once_witness :
  ~ starts_step (exec_event (exec_event (exec_event two_step_run Render) Flush) Render)
                (exec_event (exec_event (exec_event (exec_event two_step_run Render) Flush)
                                        Render) Flush) 0.
Proof.
  apply (run_starts_step_once plan_parse (fun i => i) (PlanText plan_text) []
           [Render; Flush; Render; Flush] 1 3 0
           (exec_event two_step_run Render)
           (exec_event (exec_event two_step_run Render) Flush)).
  - lia.
  - reflexivity.
  - reflexivity.
  - reflexivity.
  - reflexivity.
  - split; reflexivity.
Defined.
